(** * github-download-folder: the reference parser and the streaming
      filter-extractor of [src/index.ts], embedded and verified.

    The development follows the source file top-down:
    - [JsString]  : JavaScript strings as sequences of UTF-16 code units,
                    with the few [String.prototype] methods the tool calls;
    - [Regex]     : a backtracking matcher for the fragment of ECMAScript
                    regular expressions the tool writes down;
    - [Parser]    : [parseGitHubUrl];
    - [Path]      : the POSIX flavour of Node's [path] module;
    - [Download]  : [downloadFolder], over an abstract file system;
    - [MemFs]     : an in-memory file system to run [downloadFolder] on;
    - [Demo]      : archives, environments and file systems to run it with.

    The definitions come first, the lemmas about them next, and the
    properties of the tool, numbered C1 to C10, last. *)

From Stdlib Require Import NArith Lia Ascii String DecimalString.
From stdpp Require Import base option list strings gmap.

Set Default Proof Using "Type".

(** ** JavaScript strings *)

Module JsString.

(** A JavaScript string is a sequence of 16-bit code units; regular
    expressions without the [u] flag work on code units as well. *)
Definition codeUnit := N.
Abbreviation jsstring := (list N).

Definition js (s : string) : jsstring :=
  N_of_ascii <$> list_ascii_of_string s.
Arguments js s%_string : simpl never.

(** [s.startsWith(p)] *)
Fixpoint startsWith (p s : jsstring) : bool :=
  match p, s with
  | [], _ => true
  | a :: p', b :: s' => (a =? b)%N && startsWith p' s'
  | _ :: _, [] => false
  end.

(** The rest of [s] after the prefix [p], when [s] starts with [p]. *)
Fixpoint stripPrefix (p s : jsstring) : option jsstring :=
  match p, s with
  | [], _ => Some s
  | a :: p', b :: s' => if (a =? b)%N then stripPrefix p' s' else None
  | _ :: _, [] => None
  end.

(** [s.replace(pat, '')] with a string pattern: the first occurrence of
    [pat] in [s], searched from the left, is removed; a string without
    an occurrence is returned as it is.  (The replacement of the source
    is always the empty string, so that no [$] pattern is involved.) *)
Fixpoint replaceFirst (pat s : jsstring) : jsstring :=
  match stripPrefix pat s with
  | Some rest => rest
  | None => match s with
            | [] => []
            | c :: s' => c :: replaceFirst pat s'
            end
  end.

(** [s.endsWith(p)] *)
Definition endsWith (p s : jsstring) : bool :=
  startsWith (reverse p) (reverse s).

(** [s.indexOf(pat)], [None] standing for -1. *)
Fixpoint indexOf (pat s : jsstring) : option nat :=
  if startsWith pat s then Some 0
  else match s with
       | [] => None
       | _ :: s' => S <$> indexOf pat s'
       end.

(** Template-literal rendering of a non-negative integer. *)
Definition digits (n : nat) : jsstring :=
  js (NilEmpty.string_of_uint (Nat.to_uint n)).

End JsString.
Export JsString.

(** ** Regular expressions *)

Module Regex.

(** The fragment of the ECMAScript pattern grammar that the three
    patterns of [parseGitHubUrl] use.  A quantifier is only ever applied
    to a character class. *)
Inductive regex :=
| Chars (l : jsstring)                       (* literal characters     *)
| Plus (greedy : bool) (cls : N → bool)      (* [cls+] and [cls+?]     *)
| Group (n : nat) (r : regex)                (* [( r )], group [n]     *)
| Opt (r : regex)                            (* [(?: r )?]             *)
| Seq (r1 r2 : regex)
| Bol                                        (* [^]                    *)
| Eol.                                       (* [$], no [m] flag       *)

Infix "@@" := Seq (at level 60, right associativity).

(** Character classes. *)
Definition isLineTerminator (c : N) : bool :=
  (c =? 10)%N || (c =? 13)%N || (c =? 8232)%N || (c =? 8233)%N.

(** [.] without the [s] flag *)
Definition dot (c : N) : bool := negb (isLineTerminator c).

(** [\w] *)
Definition wordChar (c : N) : bool :=
  ((97 <=? c) && (c <=? 122))%N || ((65 <=? c) && (c <=? 90))%N
  || ((48 <=? c) && (c <=? 57))%N || (c =? 95)%N.

(** [[\w.-]] *)
Definition wordDotDash (c : N) : bool :=
  wordChar c || (c =? 46)%N || (c =? 45)%N.

(** [[^/]] *)
Definition notSlash (c : N) : bool := negb (c =? 47)%N.

(** Any code unit but [#]; no pattern names this class, the statements
    about the generic pattern do. *)
Definition notHash (c : N) : bool := negb (c =? 35)%N.

(** The array a successful match produces: index 0 holds the matched
    substring, index [n] the capture of group [n], [None] standing for
    [undefined]. *)
Abbreviation matchArray := (list (option jsstring)).

Definition group (m : matchArray) (n : nat) : option jsstring :=
  mjoin (m !! n).

Section Matcher.
Context {A : Type}.

Definition orElse (x y : option A) : option A :=
  match x with Some _ => x | None => y end.

(** [cls*] from index [i] on the remaining input [s].  The greedy form
    first tries one more character and only then the continuation, the
    lazy form the other way round. *)
Fixpoint star (greedy : bool) (cls : N → bool) (i : nat) (s : jsstring)
    (k : nat → jsstring → option A) : option A :=
  match s with
  | c :: s' =>
      if cls c then
        if greedy then orElse (star greedy cls (S i) s' k) (k i s)
        else orElse (k i s) (star greedy cls (S i) s' k)
      else k i s
  | [] => k i s
  end.

Definition plus (greedy : bool) (cls : N → bool) (i : nat) (s : jsstring)
    (k : nat → jsstring → option A) : option A :=
  match s with
  | c :: s' => if cls c then star greedy cls (S i) s' k else None
  | [] => None
  end.
End Matcher.

(** The matcher in continuation-passing style, as in the language
    definition: [i] is the index reached, [s] the input from there on,
    [m] the captures made so far. *)
Fixpoint rmatch (r : regex) (i : nat) (s : jsstring) (m : matchArray)
    (k : nat → jsstring → matchArray → option matchArray)
    : option matchArray :=
  match r with
  | Chars l =>
      match stripPrefix l s with
      | Some s' => k (i + length l) s' m
      | None => None
      end
  | Plus greedy cls => plus greedy cls i s (λ j s', k j s' m)
  | Group n r =>
      rmatch r i s m (λ j s' m', k j s' (<[n := Some (take (j - i) s)]> m'))
  | Opt r => orElse (rmatch r i s m k) (k i s m)
  | Seq r1 r2 => rmatch r1 i s m (λ j s' m', rmatch r2 j s' m' k)
  | Bol => if decide (i = 0) then k i s m else None
  | Eol => match s with [] => k i s m | _ :: _ => None end
  end.

(** A match attempt that starts at index [i]. *)
Definition matchAt (ngroups : nat) (r : regex) (i : nat) (s : jsstring)
    : option matchArray :=
  rmatch r i s (replicate (S ngroups) None)
    (λ j _ m, Some (<[0 := Some (take (j - i) s)]> m)).

(** The start index moves right until an attempt succeeds; the result
    is that index together with the match array. *)
Fixpoint search (ngroups : nat) (r : regex) (i : nat) (s : jsstring)
    : option (nat * matchArray) :=
  match matchAt ngroups r i s with
  | Some m => Some (i, m)
  | None => match s with
            | [] => None
            | _ :: s' => search ngroups r (S i) s'
            end
  end.

(** [input.match(r)] for a pattern without the [g] flag. *)
Definition regexMatch (ngroups : nat) (r : regex) (input : jsstring)
    : option matchArray :=
  snd <$> search ngroups r 0 input.

(** [input.replace(r, '')] for a pattern without the [g] flag: the
    first match is cut out. *)
Definition replaceRegex (ngroups : nat) (r : regex) (input : jsstring)
    : jsstring :=
  match search ngroups r 0 input with
  | Some (i, m) =>
      take i input ++ drop (i + length (default [] (group m 0))) input
  | None => input
  end.

End Regex.
Export Regex.

(** ** The reference parser *)

Module Parser.

Record RepoRef := {
  owner : jsstring;
  repo : jsstring;
  branch : option jsstring;
  subfolder : option jsstring
}.

Inductive completion (A : Type) :=
| Return (a : A)
| Throw (message : jsstring).
Arguments Return {A} a.
Arguments Throw {A} message.

(** [/^([\w.-]+)\/([\w.-]+)(?:#(.+))?$/] *)
Definition shorthandRegex : regex :=
  Bol @@ Group 1 (Plus true wordDotDash) @@ Chars (js "/") @@
  Group 2 (Plus true wordDotDash) @@
  Opt (Chars (js "#") @@ Group 3 (Plus true dot)) @@ Eol.

(** [/github\.com\/(.+?)\/(.+?)(?:\.git)?(?:#(.+))?$/] *)
Definition fullRepoRegex : regex :=
  Chars (js "github.com/") @@ Group 1 (Plus false dot) @@ Chars (js "/") @@
  Group 2 (Plus false dot) @@ Opt (Chars (js ".git")) @@
  Opt (Chars (js "#") @@ Group 3 (Plus true dot)) @@ Eol.

(** [/^https:\/\/github\.com\/([^/]+)\/([^/]+)\/tree\/([^/]+)\/(.+)$/] *)
Definition treeUrlRegex : regex :=
  Bol @@ Chars (js "https://github.com/") @@ Group 1 (Plus true notSlash) @@
  Chars (js "/") @@ Group 2 (Plus true notSlash) @@ Chars (js "/tree/") @@
  Group 3 (Plus true notSlash) @@ Chars (js "/") @@
  Group 4 (Plus true dot) @@ Eol.

(** A group that takes part in every match of its pattern, read as a
    string. *)
Definition groupStr (m : matchArray) (n : nat) : jsstring :=
  default [] (group m n).

Definition invalidFormat : jsstring :=
  js "Invalid GitHub repo format. Use owner/repo[#branch] or full GitHub folder URL.".

Definition parseGitHubUrl (input : jsstring) : completion RepoRef :=
  match regexMatch 4 treeUrlRegex input with
  | Some treeMatch =>
      Return {| owner := groupStr treeMatch 1; repo := groupStr treeMatch 2;
                branch := group treeMatch 3; subfolder := group treeMatch 4 |}
  | None =>
  match regexMatch 3 shorthandRegex input with
  | Some shorthandMatch =>
      Return {| owner := groupStr shorthandMatch 1;
                repo := groupStr shorthandMatch 2;
                branch := group shorthandMatch 3; subfolder := None |}
  | None =>
  match regexMatch 3 fullRepoRegex input with
  | Some fullRepoMatch =>
      Return {| owner := groupStr fullRepoMatch 1;
                repo := groupStr fullRepoMatch 2;
                branch := group fullRepoMatch 3; subfolder := None |}
  | None => Throw invalidFormat
  end end end.

End Parser.
Export Parser.

(** ** Node's [path] module, POSIX flavour

    The tool calls [path.join], [path.dirname], [path.basename] and
    [path.resolve]; they are library functions, modelled here after
    their documented behaviour on POSIX systems. *)

Module Path.

Definition isSlash (c : N) : bool := (c =? 47)%N.

Fixpoint dropWhile (f : N → bool) (s : jsstring) : jsstring :=
  match s with
  | c :: s' => if f c then dropWhile f s' else s
  | [] => []
  end.

Fixpoint takeWhile (f : N → bool) (s : jsstring) : jsstring :=
  match s with
  | c :: s' => if f c then c :: takeWhile f s' else []
  | [] => []
  end.

(** The segments between the slashes of a path. *)
Fixpoint segments (s : jsstring) : list jsstring :=
  match s with
  | [] => [[]]
  | c :: s' =>
      if isSlash c then [] :: segments s'
      else match segments s' with
           | seg :: segs => (c :: seg) :: segs
           | [] => [[c]]
           end
  end.

Definition joinWith (sep : jsstring) (l : list jsstring) : jsstring :=
  match l with
  | [] => []
  | x :: l' => x ++ concat ((λ y, sep ++ y) <$> l')
  end.

(** One segment pushed on the normalized segments read so far, kept in
    reverse order: empty and [.] segments vanish, [..] removes the
    segment before it, or stays when there is none and the path is
    relative. *)
Definition pushSegment (allowAboveRoot : bool) (acc : list jsstring)
    (seg : jsstring) : list jsstring :=
  if bool_decide (seg = []) || bool_decide (seg = js ".") then acc
  else if bool_decide (seg = js "..") then
    match acc with
    | last :: acc' =>
        if bool_decide (last = js "..") then seg :: acc else acc'
    | [] => if allowAboveRoot then [seg] else []
    end
  else seg :: acc.

Definition normalizeString (p : jsstring) (allowAboveRoot : bool) : jsstring :=
  joinWith (js "/")
    (reverse (fold_left (pushSegment allowAboveRoot) (segments p) [])).

Definition isAbsolute (p : jsstring) : bool := startsWith (js "/") p.

Definition normalize (p : jsstring) : jsstring :=
  match p with
  | [] => js "."
  | _ :: _ =>
      let trailingSeparator := endsWith (js "/") p in
      let res := normalizeString p (negb (isAbsolute p)) in
      match res with
      | [] => if isAbsolute p then js "/"
              else if trailingSeparator then js "./" else js "."
      | _ :: _ =>
          let res := if trailingSeparator then res ++ js "/" else res in
          if isAbsolute p then js "/" ++ res else res
      end
  end.

(** [path.join(a, b)] *)
Definition join (a b : jsstring) : jsstring :=
  match a, b with
  | [], [] => js "."
  | [], _ => normalize b
  | _, [] => normalize a
  | _, _ => normalize (a ++ js "/" ++ b)
  end.

(** [path.dirname(p)] *)
Definition dirname (p : jsstring) : jsstring :=
  match p with
  | [] => js "."
  | c :: p' =>
      let hasRoot := isSlash c in
      let noTrail := dropWhile isSlash (reverse p') in
      match dropWhile (λ c, negb (isSlash c)) noTrail with
      | [] => if hasRoot then js "/" else js "."
      | _ :: before =>
          if hasRoot && bool_decide (before = []) then js "//"
          else c :: reverse before
      end
  end.

(** [path.basename(p)] *)
Definition basename (p : jsstring) : jsstring :=
  reverse (takeWhile (λ c, negb (isSlash c)) (dropWhile isSlash (reverse p))).

(** The loop of [path.resolve]: arguments are read from the right until
    an absolute one has been seen. *)
Fixpoint resolveLoop (argsRev : list jsstring) (resolved : jsstring)
    : jsstring * bool :=
  match argsRev with
  | [] => (resolved, false)
  | p :: rest =>
      match p with
      | [] => resolveLoop rest resolved
      | _ :: _ =>
          if isAbsolute p then (p ++ js "/" ++ resolved, true)
          else resolveLoop rest (p ++ js "/" ++ resolved)
      end
  end.

(** [path.resolve(...args)] in a process whose working directory is
    [cwd]. *)
Definition resolve (cwd : jsstring) (args : list jsstring) : jsstring :=
  let '(resolved, absolute) := resolveLoop (reverse args ++ [cwd]) [] in
  let res := normalizeString resolved (negb absolute) in
  if absolute then js "/" ++ res
  else match res with [] => js "." | _ :: _ => res end.

End Path.

(** ** [downloadFolder] *)

Module Download.

(** What [unzipper.Parse] yields for one record of the archive. *)
Inductive EntryType := Directory | File.

Record Entry := {
  path : jsstring;
  type : EntryType;
  content : list N
}.

(** An error raised by the file system: [err.code] and [err.message]. *)
Record FsError := {
  code : option jsstring;
  message : jsstring
}.

Inductive Stats := StatsFile | StatsDirectory | StatsOther.

Definition isFile (st : Stats) : bool :=
  match st with StatsFile => true | _ => false end.

(** The calls into [fs-extra], over a file system of type [W].  The
    probes leave the file system as it is; the other calls return the
    file system they leave behind, together with the error they raised,
    if any.  [writeStream p c] stands for piping an entry of content [c]
    into [fs.createWriteStream(p)] until [finish] or [error]. *)
Class FsExtra (W : Type) := {
  stat : jsstring → W → FsError + Stats;
  readdir : jsstring → W → FsError + list jsstring;
  ensureDir : jsstring → W → W * option FsError;
  writeStream : jsstring → list N → W → W * option FsError;
  remove : jsstring → W → W * option FsError
}.

(** What the [ora] spinner is told, in order. *)
Inductive SpinnerEvent :=
| Start (text : jsstring)
| Text (text : jsstring)
| Warn (text : jsstring)
| Fail (text : jsstring)
| Succeed (text : jsstring).

Record Chalk := {
  cyan : jsstring → jsstring;
  red : jsstring → jsstring;
  green : jsstring → jsstring
}.

(** A [node-fetch] response: for the metadata request the
    [default_branch] of its JSON body, for the archive request the
    entries [unzipper.Parse] decodes its body to.  The decoded stream is
    taken to yield its entries one after the other and to end; a stream
    that breaks off is not modelled. *)
Record Response := {
  ok : bool;
  statusText : jsstring;
  default_branch : jsstring;
  body : option (list Entry)
}.

Record Env := {
  cwd : jsstring;                (* process.cwd() *)
  tmpdir : jsstring;             (* os.tmpdir()   *)
  now : nat;                     (* Date.now()    *)
  chalk : Chalk;
  fetch : jsstring → completion Response
}.

(** [a || b] on strings that may be [undefined]. *)
Definition orElseStr (a : option jsstring) (b : jsstring) : jsstring :=
  match a with
  | Some (c :: a') => c :: a'
  | _ => b
  end.

Definition getDefaultBranch (env : Env) (owner repo : jsstring)
    : completion jsstring :=
  match fetch env (js "https://api.github.com/repos/" ++ owner ++ js "/" ++ repo) with
  | Throw m => Throw m
  | Return res =>
      if ok res then Return (default_branch res)
      else Throw (js "Failed to fetch repo metadata: " ++ statusText res)
  end.

Definition quote : jsstring := [34%N].

(** The messages of the run, as the template literals build them. *)
Definition existsAsFile (c : Chalk) (outputDir : jsstring) : jsstring :=
  js "Target " ++ red c outputDir ++
  js " exists as a file. Please remove it or choose another name.".

Definition notEmpty (c : Chalk) (outputDir : jsstring) : jsstring :=
  js "Directory " ++ red c outputDir ++ js " already exists and is not empty.".

Definition probeFailed (err : FsError) : jsstring :=
  js "Error checking target path: " ++ message err.

Definition extractFailed (entryPath : jsstring) (err : FsError) : jsstring :=
  js "Failed to extract " ++ entryPath ++ js ": " ++ message err.

Definition extractedSoFar (n : nat) : jsstring :=
  js "Extracted " ++ digits n ++ js " files...".

Definition notFound (subfolder : jsstring) : jsstring :=
  js "Subfolder " ++ quote ++ subfolder ++ quote ++ js " not found in repo.".

Definition downloaded (c : Chalk) (subfolder outputDir : jsstring) (n : nat)
    : jsstring :=
  js "Successfully downloaded " ++ cyan c subfolder ++ js " to " ++
  green c outputDir ++ js " (" ++ digits n ++ js " files)".

(** [subfolder.replace(/\/$/, '')] *)
Definition normalizeSubfolder (subfolder : jsstring) : jsstring :=
  replaceRegex 0 (Chars (js "/") @@ Eol) subfolder.

Section WithFs.
Context {W : Type} `{FsExtra W}.

Record Outcome := {
  finalFs : W;
  exitCode : option nat;         (* process.exitCode, when set *)
  spinnerLog : list SpinnerEvent
}.

(** The variables of the extraction loop. *)
Record LoopState := {
  fs : W;
  filesExtracted : nat;
  matchedSomething : bool;
  spinner : list SpinnerEvent
}.

(** The probe of the output path; [Some msg] is the message the run
    fails with. *)
Definition probeError (err : FsError) : option jsstring :=
  if bool_decide (code err ≠ Some (js "ENOENT"))
  then Some (probeFailed err)
  else None.

Definition targetGuard (env : Env) (outputDir : jsstring) (w : W)
    : option jsstring :=
  match stat outputDir w with
  | inl err => probeError err
  | inr stats =>
      if isFile stats then Some (existsAsFile (chalk env) outputDir)
      else
        match readdir outputDir w with
        | inl err => probeError err
        | inr files =>
            if bool_decide (0 < length files)
            then Some (notEmpty (chalk env) outputDir)
            else None
        end
  end.

Section Loop.
Variables (prefix outputDir normalizedSubfolder : jsstring).

Definition relativePath (entry : Entry) : jsstring :=
  replaceFirst prefix (path entry).

Definition inScope (entry : Entry) : bool :=
  bool_decide (relativePath entry = normalizedSubfolder) ||
  startsWith (normalizedSubfolder ++ js "/") (relativePath entry).

Definition localPath (entry : Entry) : jsstring :=
  Path.join outputDir
    (replaceFirst (normalizedSubfolder ++ js "/") (relativePath entry)).

(** The body of the [try] block for one entry: the state it leaves,
    and the error that interrupted it, if any. *)
Definition extractEntry (st : LoopState) (entry : Entry)
    : LoopState * option FsError :=
  if inScope entry then
    match type entry with
    | Directory =>
        let '(w, err) := ensureDir (localPath entry) (fs st) in
        ({| fs := w; filesExtracted := filesExtracted st;
            matchedSomething := true; spinner := spinner st |}, err)
    | File =>
        match ensureDir (Path.dirname (localPath entry)) (fs st) with
        | (w, Some err) =>
            ({| fs := w; filesExtracted := filesExtracted st;
                matchedSomething := true; spinner := spinner st |},
             Some err)
        | (w, None) =>
            match writeStream (localPath entry) (content entry) w with
            | (w', Some err) =>
                ({| fs := w'; filesExtracted := filesExtracted st;
                    matchedSomething := true; spinner := spinner st |},
                 Some err)
            | (w', None) =>
                ({| fs := w'; filesExtracted := S (filesExtracted st);
                    matchedSomething := true;
                    spinner := spinner st ++
                      [Text (extractedSoFar (S (filesExtracted st)))] |},
                 None)
            end
        end
    end
  else (st, None).                       (* entry.autodrain() *)

(** One iteration: the [try] block, and the [catch] that turns an
    error into a warning. *)
Definition processEntry (st : LoopState) (entry : Entry) : LoopState :=
  match extractEntry st entry with
  | (st', None) => st'
  | (st', Some err) =>
      {| fs := fs st'; filesExtracted := filesExtracted st';
         matchedSomething := matchedSomething st';
         spinner := spinner st' ++
           [Warn (extractFailed (path entry) err)] |}
  end.

(** [for await (const entry of stream)] *)
Definition extractLoop (entries : list Entry) (st : LoopState)
    : LoopState :=
  fold_left processEntry entries st.
End Loop.

(** The [catch] of the outer [try]. *)
Definition fatal (tempDir : option jsstring) (msg : jsstring) (w : W)
    (log : list SpinnerEvent) : Outcome :=
  {| finalFs := match tempDir with
                | Some d => fst (remove d w)
                | None => w
                end;
     exitCode := Some 1;
     spinnerLog := log ++ [Fail msg] |}.

(** What follows the loop. *)
Definition report (env : Env) (subfolder outputDir tempDir : jsstring)
    (st : LoopState) : Outcome :=
  if negb (matchedSomething st) then
    {| finalFs := fst (remove tempDir (fs st));
       exitCode := Some 1;
       spinnerLog := spinner st ++ [Fail (notFound subfolder)] |}
  else
    {| finalFs := fs st;
       exitCode := None;
       spinnerLog := spinner st ++
         [Succeed (downloaded (chalk env) subfolder outputDir
                     (filesExtracted st))] |}.

(** From the two [ensureDir] calls to the end of the [try] block. *)
Definition extractPhase (env : Env)
    (subfolder prefix outputDir tempDir : jsstring)
    (entries : list Entry) (w : W) (log : list SpinnerEvent) : Outcome :=
  match ensureDir tempDir w with
  | (w1, Some err) => fatal (Some tempDir) (message err) w1 log
  | (w1, None) =>
  match ensureDir outputDir w1 with
  | (w2, Some err) => fatal (Some tempDir) (message err) w2 log
  | (w2, None) =>
      report env subfolder outputDir tempDir
        (extractLoop prefix outputDir (normalizeSubfolder subfolder) entries
           {| fs := w2; filesExtracted := 0; matchedSomething := false;
              spinner := log |})
  end end.

Definition outputDirOf (env : Env) (subfolder : jsstring)
    (target : option jsstring) : jsstring :=
  let defaultDirName :=
    orElseStr (Some (Path.basename (normalizeSubfolder subfolder)))
              (js "downloaded-folder") in
  Path.resolve (cwd env) [cwd env; orElseStr target defaultDirName].

(** [branch || await getDefaultBranch(owner, repo)] *)
Definition resolveBranch (env : Env) (ref : RepoRef) : completion jsstring :=
  match branch ref with
  | Some (c :: b) => Return (c :: b)
  | _ => getDefaultBranch env (owner ref) (repo ref)
  end.

Definition zipUrlOf (ref : RepoRef) (finalBranch : jsstring) : jsstring :=
  js "https://github.com/" ++ owner ref ++ js "/" ++ repo ref
    ++ js "/archive/refs/heads/" ++ finalBranch ++ js ".zip".

Definition tempDirOf (env : Env) : jsstring :=
  Path.join (tmpdir env) (js "gh-folder-" ++ digits (now env)).

Definition prefixOf (ref : RepoRef) (finalBranch : jsstring) : jsstring :=
  repo ref ++ js "-" ++ finalBranch ++ js "/".

(** The spinner up to the archive request. *)
Definition fetchingLog (env : Env) (ref : RepoRef) : list SpinnerEvent :=
  [Start (js "Preparing download...");
   Text (js "Fetching ZIP from " ++
         cyan (chalk env) (orElseStr (branch ref) (js "default branch")))].

Definition downloadFolder (env : Env) (repoUrl subfolder : jsstring)
    (target : option jsstring) (w : W) : Outcome :=
  let log0 := [Start (js "Preparing download...")] in
  match parseGitHubUrl repoUrl with
  | Throw m => fatal None m w log0
  | Return ref =>
  match resolveBranch env ref with
  | Throw m => fatal None m w log0
  | Return finalBranch =>
      let zipUrl := zipUrlOf ref finalBranch in
      let tempDir := tempDirOf env in
      let prefix := prefixOf ref finalBranch in
      let log1 := fetchingLog env ref in
      match fetch env zipUrl with
      | Throw m => fatal (Some tempDir) m w log1
      | Return res =>
          if negb (ok res) then
            fatal (Some tempDir) (js "Failed to download ZIP: " ++ statusText res)
              w log1
          else
            match body res with
            | None => fatal (Some tempDir) (js "Error fetching data") w log1
            | Some entries =>
                let outputDir := outputDirOf env subfolder target in
                match targetGuard env outputDir w with
                | Some msg =>
                    {| finalFs := w; exitCode := Some 1;
                       spinnerLog := log1 ++ [Fail msg] |}
                | None =>
                    extractPhase env subfolder prefix outputDir tempDir
                      entries w log1
                end
            end
      end
  end end.
End WithFs.

Arguments Outcome W : clear implicits.
Arguments LoopState W : clear implicits.

End Download.
Export Download.

(** ** An in-memory file system *)

Module MemFs.

Inductive node := FileNode (content : list N) | DirNode.

(** The nodes by absolute path, the root directory [/] being implicit,
    and the paths at which nothing may be created or written. *)
Record memfs := {
  nodes : gmap jsstring node;
  denied : gset jsstring
}.

Definition fsError (c : string) (what p : jsstring) : FsError :=
  {| code := Some (js c);
     message := js c ++ js ": " ++ what ++ js " '" ++ p ++ js "'" |}.

Definition isDir (w : memfs) (p : jsstring) : bool :=
  bool_decide (p = js "/") ||
  match nodes w !! p with Some DirNode => true | _ => false end.

Definition memStat (p : jsstring) (w : memfs) : FsError + Stats :=
  if bool_decide (p = js "/") then inr StatsDirectory
  else match nodes w !! p with
       | Some (FileNode _) => inr StatsFile
       | Some DirNode => inr StatsDirectory
       | None => inl (fsError "ENOENT" (js "no such file or directory, stat") p)
       end.

Definition children (p : jsstring) (w : memfs) : list jsstring :=
  Path.basename <$>
    filter (λ q, Path.dirname q = p ∧ q ≠ p) (elements (dom (nodes w))).

Definition memReaddir (p : jsstring) (w : memfs) : FsError + list jsstring :=
  if isDir w p then inr (children p w)
  else match nodes w !! p with
       | Some _ => inl (fsError "ENOTDIR" (js "not a directory, scandir") p)
       | None => inl (fsError "ENOENT" (js "no such file or directory, scandir") p)
       end.

(** The directories [mkdir -p] goes through, outermost first. *)
Fixpoint ancestors (from : jsstring) (segs : list jsstring) : list jsstring :=
  match segs with
  | [] => []
  | seg :: segs' =>
      match seg with
      | [] => ancestors from segs'
      | _ :: _ => let here := from ++ js "/" ++ seg in
                  here :: ancestors here segs'
      end
  end.

Fixpoint mkdirs (dirs : list jsstring) (w : memfs) : memfs * option FsError :=
  match dirs with
  | [] => (w, None)
  | d :: dirs' =>
      match nodes w !! d with
      | Some DirNode => mkdirs dirs' w
      | Some (FileNode _) =>
          (w, Some (fsError "EEXIST" (js "file already exists, mkdir") d))
      | None =>
          if bool_decide (d ∈ denied w) then
            (w, Some (fsError "EACCES" (js "permission denied, mkdir") d))
          else mkdirs dirs' {| nodes := <[d := DirNode]> (nodes w);
                               denied := denied w |}
      end
  end.

Definition memEnsureDir (p : jsstring) (w : memfs) : memfs * option FsError :=
  mkdirs (ancestors [] (Path.segments p)) w.

Definition memWriteStream (p : jsstring) (c : list N) (w : memfs)
    : memfs * option FsError :=
  if bool_decide (p ∈ denied w) then
    (w, Some (fsError "EACCES" (js "permission denied, open") p))
  else if isDir w p then
    (w, Some (fsError "EISDIR" (js "illegal operation on a directory, open") p))
  else if isDir w (Path.dirname p) then
    ({| nodes := <[p := FileNode c]> (nodes w); denied := denied w |}, None)
  else (w, Some (fsError "ENOENT" (js "no such file or directory, open") p)).

Definition memRemove (p : jsstring) (w : memfs) : memfs * option FsError :=
  ({| nodes := filter (λ kv, kv.1 ≠ p ∧ startsWith (p ++ js "/") kv.1 = false)
                 (nodes w);
      denied := denied w |}, None).

#[global] Instance memfs_FsExtra : FsExtra memfs := {|
  stat := memStat;
  readdir := memReaddir;
  ensureDir := memEnsureDir;
  writeStream := memWriteStream;
  remove := memRemove
|}.

Definition plain : Chalk := {| cyan := id; red := id; green := id |}.

End MemFs.

(** ** Observing a run *)

Section Observations.
Context {W : Type} `{FsExtra W}.

(** The stages before the target is probed: the reference parsed, the
    branch resolved, the archive fetched and decoded. *)
Definition archiveOf (env : Env) (repoUrl : jsstring)
    : option (RepoRef * jsstring * list Entry) :=
  match parseGitHubUrl repoUrl with
  | Throw _ => None
  | Return ref =>
      match resolveBranch env ref with
      | Throw _ => None
      | Return finalBranch =>
          match fetch env (zipUrlOf ref finalBranch) with
          | Throw _ => None
          | Return res =>
              if ok res
              then (λ entries, (ref, finalBranch, entries)) <$> body res
              else None
          end
      end
  end.

(** How a run ends when the target is refused. *)
Definition refused (env : Env) (ref : RepoRef) (w : W) (msg : jsstring)
    : Outcome W :=
  {| finalFs := w; exitCode := Some 1;
     spinnerLog := fetchingLog env ref ++ [Fail msg] |}.

Variables (prefix outputDir normalizedSubfolder : jsstring).

(** What became of one entry. *)
Inductive EntryResult :=
| Drained
| DirEnsured
| FileWritten
| Raised (err : FsError).

Definition resultOf (st : LoopState W) (entry : Entry) : EntryResult :=
  if inScope prefix normalizedSubfolder entry then
    match (extractEntry prefix outputDir normalizedSubfolder st entry).2 with
    | Some err => Raised err
    | None => match type entry with
              | Directory => DirEnsured
              | File => FileWritten
              end
    end
  else Drained.

(** The entries of an archive with what became of each, the state being
    threaded as the loop does. *)
Fixpoint results (entries : list Entry) (st : LoopState W)
    : list (Entry * EntryResult) :=
  match entries with
  | [] => []
  | entry :: entries' =>
      (entry, resultOf st entry) ::
      results entries'
        (processEntry prefix outputDir normalizedSubfolder st entry)
  end.

Definition isWritten (r : EntryResult) : bool :=
  match r with FileWritten => true | _ => false end.

Definition countWritten (rs : list (Entry * EntryResult)) : nat :=
  length (List.filter (λ er, isWritten er.2) rs).

Definition warning (pe : jsstring * FsError) : SpinnerEvent :=
  Warn (extractFailed pe.1 pe.2).

(** No entry in scope but directories. *)
Definition directoriesOnly (entries : list Entry) : bool :=
  forallb (λ e, implb (inScope prefix normalizedSubfolder e)
                  (match type e with Directory => true | File => false end))
    entries.

Definition isWarn (ev : SpinnerEvent) : bool :=
  match ev with Warn _ => true | _ => false end.

Definition warningsOf (log : list SpinnerEvent) : list SpinnerEvent :=
  List.filter isWarn log.
End Observations.

(** ** Example runs *)

Module Demo.
Import MemFs.

Definition file (p : string) (c : list N) : Entry :=
  {| path := js p; type := File; content := c |}.

Definition dir (p : string) : Entry :=
  {| path := js p; type := Directory; content := [] |}.

Definition archive : list Entry :=
  [dir "repo-branch/"; file "repo-branch/keep/a.txt" [97%N];
   file "repo-branch/keep/sub/b.txt" [98%N];
   file "repo-branch/skip/c.txt" [99%N]].

Definition dirsOnly : list Entry :=
  [dir "repo-branch/"; dir "repo-branch/keep/"; dir "repo-branch/keep/sub/"].

Definition threeFiles : list Entry :=
  [file "repo-branch/keep/a.txt" [97%N]; file "repo-branch/keep/b.txt" [98%N];
   file "repo-branch/keep/c.txt" [99%N]].

(** Every request is answered with success; the archive decodes to
    [entries]. *)
Definition env (entries : list Entry) : Env :=
  {| cwd := js "/work"; tmpdir := js "/tmp"; now := 42; chalk := plain;
     fetch := λ _, Return {| ok := true; statusText := js "OK";
                             default_branch := js "main";
                             body := Some entries |} |}.

(** No connection. *)
Definition offline : Env :=
  {| cwd := js "/work"; tmpdir := js "/tmp"; now := 42; chalk := plain;
     fetch := λ _, Throw (js "request failed") |}.

Definition emptyFs : memfs := {| nodes := ∅; denied := ∅ |}.

(** What [owner/repo#branch] parses to. *)
Definition ownerRepo : RepoRef :=
  {| owner := js "owner"; repo := js "repo"; branch := Some (js "branch");
     subfolder := None |}.

(** [/work/output] exists and holds a file. *)
Definition occupied : memfs :=
  {| nodes := {[ js "/work" := DirNode; js "/work/output" := DirNode;
                 js "/work/output/old.txt" := FileNode [111%N] ]};
     denied := ∅ |}.

(** [/work/output] exists as a file. *)
Definition asFile : memfs :=
  {| nodes := {[ js "/work" := DirNode; js "/work/output" := FileNode [] ]};
     denied := ∅ |}.

(** [/work/output] exists and is empty. *)
Definition vacant : memfs :=
  {| nodes := {[ js "/work" := DirNode; js "/work/output" := DirNode ]};
     denied := ∅ |}.

(** Nothing may be written at [/work/output/b.txt]. *)
Definition guarded : memfs :=
  {| nodes := ∅; denied := {[ js "/work/output/b.txt" ]} |}.

(** A file system whose probes fail with [EACCES]. *)
Inductive sealed := Sealed.

Definition accessError : FsError :=
  {| code := Some (js "EACCES"); message := js "EACCES: permission denied" |}.

#[global] Instance sealed_FsExtra : FsExtra sealed := {|
  stat := λ _ _, inl accessError;
  readdir := λ _ _, inl accessError;
  ensureDir := λ _ w, (w, Some accessError);
  writeStream := λ _ _ w, (w, Some accessError);
  remove := λ _ w, (w, None)
|}.

Definition run (entries : list Entry) (subfolder : string) (w : memfs)
    : Outcome memfs :=
  downloadFolder (env entries) (js "owner/repo#branch") (js subfolder)
    (Some (js "output")) w.

End Demo.

(** ** [main] *)

Module Cli.

(** What [main] ends up doing. *)
Inductive Action :=
| PrintVersion                     (* console.log(version); process.exit(0) *)
| PrintHelp                        (* printHelp(); process.exit(0)          *)
| SubfolderRequired                (* console.error; printHelp(); exitCode=1 *)
| ReportError (message : jsstring) (* console.error('Error:', m); exitCode=1 *)
| Download (repoUrl subfolder : jsstring) (target : option jsstring).

(** Truthiness of a string that may be [undefined]. *)
Definition truthy (s : option jsstring) : bool :=
  match s with Some (_ :: _) => true | _ => false end.

(** The reference [main] hands to [downloadFolder]:
    [`${owner}/${repo}${branch ? `#${branch}` : ''}`] *)
Definition rebuild (parsed : RepoRef) : jsstring :=
  owner parsed ++ js "/" ++ repo parsed ++
  match branch parsed with
  | Some (c :: b) => js "#" ++ c :: b
  | _ => []
  end.

(** [args.includes(x)] *)
Definition includes (args : list jsstring) (x : jsstring) : bool :=
  bool_decide (x ∈ args).

(** [main], on the arguments that follow the script name. *)
Definition main (args : list jsstring) : Action :=
  if includes args (js "--version") then PrintVersion
  else if includes args (js "--help") || bool_decide (length args = 0)
  then PrintHelp
  else
    match args with
    | [] => PrintHelp
    | repoInput :: _ =>
        match parseGitHubUrl repoInput with
        | Throw m => ReportError m
        | Return parsed =>
            if negb (truthy (subfolder parsed)) && bool_decide (length args < 2)
            then SubfolderRequired
            else
              let '(subfolder', target) :=
                if negb (truthy (subfolder parsed))
                then (args !! 1, args !! 2)
                else (subfolder parsed, args !! 1) in
              if negb (truthy subfolder') then SubfolderRequired
              else Download (rebuild parsed) (default [] subfolder') target
        end
    end.

End Cli.
Export Cli.

(** ** Observing the spinner *)

Definition isText (ev : SpinnerEvent) : bool :=
  match ev with Text _ => true | _ => false end.

(** The progress texts of a log. *)
Definition textsOf (log : list SpinnerEvent) : list SpinnerEvent :=
  List.filter isText log.

(** Neither a verdict nor a start. *)
Definition isInterim (ev : SpinnerEvent) : bool :=
  match ev with Text _ | Warn _ => true | _ => false end.

Definition isFileEntry (entry : Entry) : bool :=
  match type entry with File => true | Directory => false end.

(** ** More example environments *)

Module Cases.
Import MemFs.

(** The metadata endpoint is down; every other request succeeds and
    decodes to [entries]. *)
Definition noMetadata (entries : list Entry) : Env :=
  {| cwd := js "/work"; tmpdir := js "/tmp"; now := 42; chalk := plain;
     fetch := λ url,
       if startsWith (js "https://api.github.com/") url
       then Throw (js "getaddrinfo ENOTFOUND api.github.com")
       else Return {| ok := true; statusText := js "OK";
                      default_branch := js "main";
                      body := Some entries |} |}.

(** Every request is answered with [404 Not Found]. *)
Definition notFound404 : Env :=
  {| cwd := js "/work"; tmpdir := js "/tmp"; now := 42; chalk := plain;
     fetch := λ _, Return {| ok := false; statusText := js "Not Found";
                             default_branch := []; body := None |} |}.

End Cases.

(** ** Observing paths *)

(** The segments an absolute path comes down to. *)
Definition dirSegments (p : jsstring) : list jsstring :=
  reverse (fold_left (Path.pushSegment false) (Path.segments p) []).

(** No segment of the path is [..]. *)
Definition noDotDot (p : jsstring) : bool :=
  forallb (λ seg, negb (bool_decide (seg = js ".."))) (Path.segments p).

(** ** Observing the calls into the file system *)

(** A call that may change the file system, with the error it raised,
    if any. *)
Inductive FsCall :=
| EnsureDirCall (p : jsstring) (raised : option FsError)
| WriteStreamCall (p : jsstring) (c : list N) (raised : option FsError)
| RemoveCall (p : jsstring) (raised : option FsError).

Section Traced.
Context {W : Type} `{FsExtra W}.

(** The file system [W] together with a record of the calls made on it:
    every call is passed on to [W] and its answer is returned as it is,
    the call and the error it raised being noted at the end of the
    record. *)
Definition traced : FsExtra (W * list FsCall) :=
  {| stat p wt := stat p wt.1;
     readdir p wt := readdir p wt.1;
     ensureDir p wt :=
       let '(w, raised) := ensureDir p wt.1 in
       ((w, wt.2 ++ [EnsureDirCall p raised]), raised);
     writeStream p c wt :=
       let '(w, raised) := writeStream p c wt.1 in
       ((w, wt.2 ++ [WriteStreamCall p c raised]), raised);
     remove p wt :=
       let '(w, raised) := remove p wt.1 in
       ((w, wt.2 ++ [RemoveCall p raised]), raised) |}.

(** A state of the loop over [W], with a record of calls beside its file
    system. *)
Definition withTrace (st : LoopState W) (t : list FsCall)
    : LoopState (W * list FsCall) :=
  {| fs := (fs st, t); filesExtracted := filesExtracted st;
     matchedSomething := matchedSomething st; spinner := spinner st |}.

(** The calls the loop makes on the file system, in order. *)
Definition callsOf (prefix outputDir normalizedSubfolder : jsstring)
    (entries : list Entry) (st : LoopState W) : list FsCall :=
  (fs (extractLoop (H := traced) prefix outputDir normalizedSubfolder
         entries (withTrace st []))).2.
End Traced.

(** A [writeStream] that finished without an error. *)
Definition isSuccessfulWrite (call : FsCall) : bool :=
  match call with WriteStreamCall _ _ None => true | _ => false end.

Definition hasRaised (call : FsCall) : bool :=
  match call with
  | EnsureDirCall _ (Some _) | WriteStreamCall _ _ (Some _)
  | RemoveCall _ (Some _) => true
  | _ => false
  end.

Definition successfulWrites (calls : list FsCall) : nat :=
  length (List.filter isSuccessfulWrite calls).

Definition failedCalls (calls : list FsCall) : nat :=
  length (List.filter hasRaised calls).

(** The paths [ensureDir] was called on, in order. *)
Definition ensuredPaths (calls : list FsCall) : list jsstring :=
  omap (λ call, match call with
                | EnsureDirCall p _ => Some p
                | _ => None
                end) calls.

(** ** Observing [main] *)

(** What [main] does that can be seen from outside, in order.  The
    colours [chalk] gives to the lines are left out. *)
Inductive Effect :=
| LogVersion                 (* console.log(`github-folder-downloader v...`) *)
| CallPrintHelp              (* printHelp() *)
| ConsoleError (line : jsstring)
| ProcessExit (code : nat)   (* process.exit(code) *)
| SetExitCode (code : nat)   (* process.exitCode = code; return *)
| CallDownloadFolder (repoUrl subfolder : jsstring) (target : option jsstring).

Definition effects (a : Action) : list Effect :=
  match a with
  | PrintVersion => [LogVersion; ProcessExit 0]
  | PrintHelp => [CallPrintHelp; ProcessExit 0]
  | SubfolderRequired =>
      [ConsoleError (js "Subfolder path is required."); CallPrintHelp;
       SetExitCode 1]
  | ReportError m => [ConsoleError (js "Error: " ++ m); SetExitCode 1]
  | Download repoUrl subfolder target =>
      [CallDownloadFolder repoUrl subfolder target]
  end.

(** ** The earlier version of the tool

    The repository also holds an earlier version of the source file,
    whose parser knows two patterns and no subfolder. *)

Module Legacy.

Record RepoRef := {
  owner : jsstring;
  repo : jsstring;
  branch : option jsstring
}.

(** [/^([\w.-]+)\/([\w.-]+)(?:#(.+))?$/] *)
Definition shorthandRegex : regex :=
  Bol @@ Group 1 (Plus true wordDotDash) @@ Chars (js "/") @@
  Group 2 (Plus true wordDotDash) @@
  Opt (Chars (js "#") @@ Group 3 (Plus true dot)) @@ Eol.

(** [/github\.com\/(.+?)\/(.+?)(?:\.git)?(?:#(.+))?$/] *)
Definition urlRegex : regex :=
  Chars (js "github.com/") @@ Group 1 (Plus false dot) @@ Chars (js "/") @@
  Group 2 (Plus false dot) @@ Opt (Chars (js ".git")) @@
  Opt (Chars (js "#") @@ Group 3 (Plus true dot)) @@ Eol.

Definition invalidFormat : jsstring :=
  js "Invalid GitHub repo format. Use owner/repo[#branch] or full GitHub URL.".

Definition parseGitHubUrl (input : jsstring) : completion RepoRef :=
  match regexMatch 3 shorthandRegex input with
  | Some m => Return {| owner := groupStr m 1; repo := groupStr m 2;
                        branch := group m 3 |}
  | None =>
      match regexMatch 3 urlRegex input with
      | Some m => Return {| owner := groupStr m 1; repo := groupStr m 2;
                            branch := group m 3 |}
      | None => Throw invalidFormat
      end
  end.

End Legacy.

(** A reference of the earlier version, as one of the present version. *)
Definition ofLegacy (r : Legacy.RepoRef) : RepoRef :=
  {| owner := Legacy.owner r; repo := Legacy.repo r;
     branch := Legacy.branch r; subfolder := None |}.

(** ** The forms of a reference *)

(** A non-empty string all of whose code units are in a class. *)
Definition nonEmptyAll (cls : N → bool) (s : jsstring) : bool :=
  match s with [] => false | _ :: _ => forallb cls s end.

Section Forms.
Implicit Types (O R S : jsstring).

(** [https://github.com/O/R/tree/B/S] *)
Definition treeUrl O R (B : jsstring) S : jsstring :=
  js "https://github.com/" ++ O ++ js "/" ++ R ++ js "/tree/" ++ B
    ++ js "/" ++ S.

(** [O/R] and [O/R#B] *)
Definition fragment (B : option jsstring) : jsstring :=
  match B with Some b => js "#" ++ b | None => [] end.

Definition shorthand O R (B : option jsstring) : jsstring :=
  O ++ js "/" ++ R ++ fragment B.

Definition optAll (cls : N → bool) (B : option jsstring) : bool :=
  match B with Some b => nonEmptyAll cls b | None => true end.

(** [github.com/O/R], [github.com/O/R.git], each with an optional
    [#B] *)
Definition gitSuffix (git : bool) : jsstring :=
  if git then js ".git" else [].

Definition genericRef O R (git : bool) (B : option jsstring) : jsstring :=
  js "github.com/" ++ O ++ js "/" ++ R ++ gitSuffix git ++ fragment B.

(** What follows the repository name in the generic pattern:
    [(?:\.git)?(?:#(.+))?$] *)
Definition repoTail : regex :=
  Opt (Chars (js ".git")) @@
  Opt (Chars (js "#") @@ Group 3 (Plus true dot)) @@ Eol.
End Forms.

Ltac js_literals :=
  repeat match goal with
  | H : context [js ?s] |- _ =>
      let v := eval vm_compute in (js s) in change (js s) with v in H
  | |- context [js ?s] =>
      let v := eval vm_compute in (js s) in change (js s) with v
  end.

(** ** The library models at work *)

(** [String.prototype.replace] with a string pattern removes the first
    occurrence only, wherever it is. *)
Example replaceFirst_occurrences :
  replaceFirst (js "ab") (js "xxabyyab") = js "xxyyab" ∧
  replaceFirst (js "ab") (js "xyz") = js "xyz" ∧
  replaceFirst (js "keep/") (js "keep") = js "keep".
Proof. repeat split; vm_compute; reflexivity. Qed.

(** Lazy and greedy groups, as [RegExp.prototype.exec] fills them in. *)
Example fullRepoRegex_groups :
  regexMatch 3 fullRepoRegex (js "https://github.com/user/repo.git#dev")
  = Some [Some (js "github.com/user/repo.git#dev"); Some (js "user");
          Some (js "repo"); Some (js "dev")] ∧
  regexMatch 3 fullRepoRegex (js "https://github.com/user/my.github.io")
  = Some [Some (js "github.com/user/my.github.io"); Some (js "user");
          Some (js "my.github.io"); None] ∧
  regexMatch 3 fullRepoRegex (js "github.com/user") = None.
Proof. repeat split; vm_compute; reflexivity. Qed.

Example shorthandRegex_groups :
  regexMatch 3 shorthandRegex (js "metallicjs/templates#dev")
  = Some [Some (js "metallicjs/templates#dev"); Some (js "metallicjs");
          Some (js "templates"); Some (js "dev")] ∧
  regexMatch 3 shorthandRegex (js "metallicjs/templates/extra") = None ∧
  regexMatch 3 shorthandRegex (js "no-slash") = None.
Proof. repeat split; vm_compute; reflexivity. Qed.

(** The references of the help text. *)
Example parseGitHubUrl_help_text :
  parseGitHubUrl (js "metallicjs/templates")
  = Return {| owner := js "metallicjs"; repo := js "templates";
              branch := None; subfolder := None |} ∧
  parseGitHubUrl (js "metallicjs/templates#dev")
  = Return {| owner := js "metallicjs"; repo := js "templates";
              branch := Some (js "dev"); subfolder := None |} ∧
  parseGitHubUrl (js "https://github.com/user/repo/tree/main/src/lib")
  = Return {| owner := js "user"; repo := js "repo";
              branch := Some (js "main"); subfolder := Some (js "src/lib") |} ∧
  parseGitHubUrl (js "templates") = Throw invalidFormat.
Proof. repeat split; vm_compute; reflexivity. Qed.

(** [path], on the examples of its documentation and a few more. *)
Example path_join_examples :
  Path.join (js "/foo") (js "bar") = js "/foo/bar" ∧
  Path.join (js "/foo/bar") (js "../baz/") = js "/foo/baz/" ∧
  Path.join (js "/out") (js "") = js "/out" ∧
  Path.join (js "") (js "") = js "." ∧
  Path.join (js "a") (js "../..") = js "..".
Proof. repeat split; vm_compute; reflexivity. Qed.

Example path_dirname_basename_examples :
  Path.dirname (js "/foo/bar/baz/asdf/quux") = js "/foo/bar/baz/asdf" ∧
  Path.dirname (js "/out/a.txt") = js "/out" ∧
  Path.dirname (js "/out") = js "/" ∧
  Path.dirname (js "a.txt") = js "." ∧
  Path.basename (js "/foo/bar/quux.html") = js "quux.html" ∧
  Path.basename (js "src/components") = js "components" ∧
  Path.basename (js "") = js "".
Proof. repeat split; vm_compute; reflexivity. Qed.

Example path_resolve_examples :
  Path.resolve (js "/home/me") [js "/home/me"; js "saas-lite"]
  = js "/home/me/saas-lite" ∧
  Path.resolve (js "/home/me") [js "/home/me"; js "./my-folder"]
  = js "/home/me/my-folder" ∧
  Path.resolve (js "/home/me") [js "/home/me"; js "/tmp/x/../lib-copy/"]
  = js "/tmp/lib-copy".
Proof. repeat split; vm_compute; reflexivity. Qed.

(** The default output directory is named after the last segment of the
    subfolder. *)
Example outputDirOf_examples :
  outputDirOf (Demo.env []) (js "src/components/") None
  = js "/work/components" ∧
  outputDirOf (Demo.env []) (js "/") None = js "/work/downloaded-folder" ∧
  outputDirOf (Demo.env []) (js "src") (Some (js "./my-folder"))
  = js "/work/my-folder".
Proof. repeat split; vm_compute; reflexivity. Qed.

(** ** Facts about strings *)

Section StringFacts.
Implicit Types p s r : jsstring.

Lemma stripPrefix_app p s : stripPrefix p (p ++ s) = Some s.
Proof.
  induction p as [|a p IH]; simpl; [done|].
  by rewrite N.eqb_refl.
Qed.

Lemma stripPrefix_Some p s r : stripPrefix p s = Some r ↔ s = p ++ r.
Proof.
  split; [|intros ->; apply stripPrefix_app].
  revert s; induction p as [|a p IH]; intros [|b s]; simpl; try congruence.
  destruct (N.eqb_spec a b) as [->|]; [|done].
  intros H. by rewrite (IH _ H).
Qed.

Lemma stripPrefix_head_ne a b p s : a ≠ b → stripPrefix (a :: p) (b :: s) = None.
Proof. intros H. simpl. by destruct (N.eqb_spec a b). Qed.

Lemma startsWith_true p s : startsWith p s = true ↔ ∃ r, s = p ++ r.
Proof.
  revert s; induction p as [|a p IH]; intros [|b s]; simpl.
  - split; [by exists []|done].
  - split; [by eexists|done].
  - split; [done|by intros [? ?]].
  - rewrite andb_true_iff, N.eqb_eq, IH. split.
    + intros [-> [r ->]]. by exists r.
    + intros [r [= -> ->]]. eauto.
Qed.

Lemma replaceFirst_prefix p s : replaceFirst p (p ++ s) = s.
Proof.
  destruct p as [|a p]; [by destruct s|].
  change (replaceFirst (a :: p) ((a :: p) ++ s))
    with (match stripPrefix (a :: p) ((a :: p) ++ s) with
          | Some rest => rest
          | None => a :: replaceFirst (a :: p) (p ++ s)
          end).
  by rewrite stripPrefix_app.
Qed.

Lemma stripPrefix_startsWith p s :
  startsWith p s = false → stripPrefix p s = None.
Proof.
  intros H. destruct (stripPrefix p s) as [r|] eqn:E; [|done].
  apply stripPrefix_Some in E.
  assert (startsWith p s = true) by (apply startsWith_true; eauto).
  congruence.
Qed.

Lemma endsWith_app a p : endsWith p (a ++ p) = true.
Proof.
  unfold endsWith. rewrite reverse_app. apply startsWith_true. eauto.
Qed.

(** Before the first occurrence of [pat] there is none. *)
Lemma indexOf_first pat pre s :
  indexOf pat (pre ++ s) = Some (length pre) →
  ∀ a b, pre = a ++ b → b ≠ [] → stripPrefix pat (b ++ s) = None.
Proof.
  induction pre as [|c pre IH]; intros H a b Hab Hb.
  - by destruct a, b.
  - simpl in H. destruct (startsWith pat (c :: pre ++ s)) eqn:E; [done|].
    destruct (indexOf pat (pre ++ s)) as [n|] eqn:En; [|done].
    simpl in H. injection H as ->.
    destruct a as [|c' a]; simpl in Hab.
    + subst b. by apply stripPrefix_startsWith.
    + injection Hab as -> ->. by eapply IH.
Qed.

Lemma take_consumed (i : nat) s r : take (i + length s - i) (s ++ r) = s.
Proof.
  replace (i + length s - i) with (length s) by lia.
  by rewrite take_app_length.
Qed.
End StringFacts.

(** ** Facts about the matcher *)


Lemma nonEmptyAll_cons cls s :
  nonEmptyAll cls s = true →
  ∃ c s', s = c :: s' ∧ cls c = true ∧ forallb cls s' = true.
Proof.
  destruct s as [|c s']; simpl; [done|].
  intros [? ?]%andb_true_iff. eauto.
Qed.

Section MatcherFacts.
Context {A : Type}.
Implicit Types (k : nat → jsstring → option A) (run rest : jsstring).

Lemma orElse_None_r (x : option A) : orElse x None = x.
Proof. by destruct x. Qed.

Lemma orElse_is_Some_l (x y : option A) : is_Some x → is_Some (orElse x y).
Proof. by intros [? ->]. Qed.

Lemma orElse_is_Some_r (x y : option A) : is_Some y → is_Some (orElse x y).
Proof. destruct x; [by eexists|done]. Qed.

(** A greedy repetition takes the whole run of class characters when
    the continuation cannot start with one of them. *)
Lemma star_greedy_run cls i run rest k :
  forallb cls run = true →
  match rest with [] => True | c :: _ => cls c = false end →
  (∀ j c t, cls c = true → k j (c :: t) = None) →
  star true cls i (run ++ rest) k = k (i + length run) rest.
Proof.
  intros Hrun Hrest Hk. revert i.
  induction run as [|c run IH]; intros i; simpl.
  - rewrite Nat.add_0_r. destruct rest as [|c t]; [done|].
    simpl. by rewrite Hrest.
  - simpl in Hrun. apply andb_true_iff in Hrun as [Hc Hrun].
    rewrite Hc, (IH Hrun), (Hk _ _ _ Hc), orElse_None_r.
    f_equal. lia.
Qed.

Lemma plus_greedy_run cls i run rest k :
  nonEmptyAll cls run = true →
  match rest with [] => True | c :: _ => cls c = false end →
  (∀ j c t, cls c = true → k j (c :: t) = None) →
  plus true cls i (run ++ rest) k = k (i + length run) rest.
Proof.
  intros (c & run' & -> & Hc & Hrun)%nonEmptyAll_cons Hrest Hk.
  simpl. rewrite Hc, star_greedy_run by done. f_equal. lia.
Qed.

(** A lazy repetition stops at the first split the continuation
    accepts. *)
Lemma star_lazy_here cls i s k x :
  k i s = Some x → star false cls i s k = Some x.
Proof.
  intros Hk. destruct s as [|c t]; simpl; [done|].
  destruct (cls c); by rewrite Hk.
Qed.

Lemma star_lazy_skip cls i run rest k :
  forallb cls run = true →
  (∀ a b, run = a ++ b → b ≠ [] → k (i + length a) (b ++ rest) = None) →
  star false cls i (run ++ rest) k = star false cls (i + length run) rest k.
Proof.
  revert i. induction run as [|c run IH]; intros i Hrun Hk; simpl.
  - by rewrite Nat.add_0_r.
  - simpl in Hrun. apply andb_true_iff in Hrun as [Hc Hrun].
    rewrite Hc. pose proof (Hk [] (c :: run) eq_refl) as H0.
    simpl in H0. rewrite Nat.add_0_r in H0. rewrite H0 by done. simpl.
    rewrite IH; [f_equal; lia|done|].
    intros a b -> Hb.
    replace (S i + length a) with (i + length (c :: a)) by (simpl; lia).
    by apply Hk.
Qed.

Lemma plus_lazy_run cls i run rest k x :
  nonEmptyAll cls run = true →
  (∀ a b, run = a ++ b → a ≠ [] → b ≠ [] →
          k (i + length a) (b ++ rest) = None) →
  k (i + length run) rest = Some x →
  plus false cls i (run ++ rest) k = Some x.
Proof.
  intros (c & run' & -> & Hc & Hrun)%nonEmptyAll_cons Hk Hx.
  simpl. rewrite Hc, star_lazy_skip; [| done |].
  - apply star_lazy_here. rewrite <- Hx. f_equal. simpl. lia.
  - intros a b -> Hb.
    replace (S i + length a) with (i + length (c :: a)) by (simpl; lia).
    by apply Hk.
Qed.

(** Whatever the split chosen, a repetition succeeds as soon as the
    continuation accepts one split. *)
Lemma star_is_Some greedy cls i run rest k :
  forallb cls run = true →
  is_Some (k (i + length run) rest) →
  is_Some (star greedy cls i (run ++ rest) k).
Proof.
  revert i. induction run as [|c run IH]; intros i Hrun Hk; simpl.
  - rewrite Nat.add_0_r in Hk. destruct Hk as [x Hx].
    destruct rest as [|c t]; simpl; [by eexists|].
    destruct (cls c); [|by eexists].
    destruct greedy; rewrite Hx; [|by eexists].
    by destruct (star _ _ _ _ _).
  - simpl in Hrun. apply andb_true_iff in Hrun as [Hc Hrun].
    rewrite Hc. destruct (IH (S i) Hrun) as [x Hx].
    { by replace (S i + length run) with (i + length (c :: run))
        by (simpl; lia). }
    destruct greedy; rewrite Hx; [by eexists|].
    by destruct (k i _).
Qed.

Lemma plus_is_Some greedy cls i run rest k :
  nonEmptyAll cls run = true →
  is_Some (k (i + length run) rest) →
  is_Some (plus greedy cls i (run ++ rest) k).
Proof.
  intros (c & run' & -> & Hc & Hrun)%nonEmptyAll_cons Hk.
  simpl. rewrite Hc. apply star_is_Some; [done|].
  by replace (S i + length run') with (i + length (c :: run'))
    by (simpl; lia).
Qed.

(** Conversely a successful repetition has consumed some run of class
    characters and handed the rest to the continuation. *)
Lemma star_Some_inv greedy cls i s k x :
  star greedy cls i s k = Some x →
  ∃ run rest, s = run ++ rest ∧ forallb cls run = true ∧
              k (i + length run) rest = Some x.
Proof.
  revert i. induction s as [|c s IH]; intros i; simpl.
  - intros H. exists [], []. by rewrite Nat.add_0_r.
  - assert (k i (c :: s) = Some x →
      ∃ run rest, c :: s = run ++ rest ∧ forallb cls run = true ∧
                  k (i + length run) rest = Some x) as Here.
    { intros H. exists [], (c :: s). by rewrite Nat.add_0_r. }
    assert (cls c = true → star greedy cls (S i) s k = Some x →
      ∃ run rest, c :: s = run ++ rest ∧ forallb cls run = true ∧
                  k (i + length run) rest = Some x) as There.
    { intros Hc (run & rest & -> & Hrun & Hk)%IH.
      exists (c :: run), rest. simpl. rewrite Hc, Hrun.
      by replace (i + S (length run)) with (S i + length run) by lia. }
    destruct (cls c) eqn:Hc; [|done].
    destruct greedy.
    + destruct (star true cls (S i) s k) eqn:E; simpl; [|done].
      intros [= ->]. by apply There.
    + destruct (k i (c :: s)) eqn:E; simpl; [|by apply There].
      intros [= ->]. by apply Here.
Qed.

Lemma plus_Some_inv greedy cls i s k x :
  plus greedy cls i s k = Some x →
  ∃ run rest, s = run ++ rest ∧ nonEmptyAll cls run = true ∧
              k (i + length run) rest = Some x.
Proof.
  destruct s as [|c s]; simpl; [done|].
  destruct (cls c) eqn:Hc; [|done].
  intros (run & rest & -> & Hrun & Hk)%star_Some_inv.
  exists (c :: run), rest. simpl. rewrite Hc, Hrun.
  by replace (i + S (length run)) with (S i + length run) by lia.
Qed.
End MatcherFacts.

Section RmatchFacts.
Implicit Types (r : regex) (m : matchArray)
  (k : nat → jsstring → matchArray → option matchArray).

Lemma rmatch_bol r s m k : rmatch (Bol @@ r) 0 s m k = rmatch r 0 s m k.
Proof. reflexivity. Qed.

Lemma rmatch_bol_fail r i s m k : i ≠ 0 → rmatch (Bol @@ r) i s m k = None.
Proof. intros Hi. simpl. by destruct (decide (i = 0)). Qed.

Lemma rmatch_chars l r i s m k :
  rmatch (Chars l @@ r) i (l ++ s) m k = rmatch r (i + length l) s m k.
Proof. simpl. by rewrite stripPrefix_app. Qed.

Lemma rmatch_chars_fail l r i s m k :
  stripPrefix l s = None → rmatch (Chars l @@ r) i s m k = None.
Proof. intros H. simpl. by rewrite H. Qed.

Lemma rmatch_chars_inv l r i s m k x :
  rmatch (Chars l @@ r) i s m k = Some x →
  ∃ s', s = l ++ s' ∧ rmatch r (i + length l) s' m k = Some x.
Proof.
  simpl. destruct (stripPrefix l s) as [s'|] eqn:E; [|done].
  apply stripPrefix_Some in E as ->. eauto.
Qed.

Lemma rmatch_eol i m k : rmatch Eol i [] m k = k i [] m.
Proof. reflexivity. Qed.

Lemma rmatch_eol_fail i c t m k : rmatch Eol i (c :: t) m k = None.
Proof. reflexivity. Qed.

(** A captured greedy repetition followed by something that cannot
    start with a class character. *)
Lemma rmatch_group_greedy n cls r i run rest m k :
  nonEmptyAll cls run = true →
  match rest with [] => True | c :: _ => cls c = false end →
  (∀ j c t m', cls c = true → rmatch r j (c :: t) m' k = None) →
  rmatch (Group n (Plus true cls) @@ r) i (run ++ rest) m k
  = rmatch r (i + length run) rest (<[n := Some run]> m) k.
Proof.
  intros Hrun Hrest Hk. simpl.
  rewrite plus_greedy_run; [by rewrite take_consumed|done..|].
  intros j c t Hc. by apply Hk.
Qed.

(** A captured lazy repetition: the shortest run after which the rest
    of the pattern matches. *)
Lemma rmatch_group_lazy n cls r i run rest m k x :
  nonEmptyAll cls run = true →
  (∀ a b m', run = a ++ b → a ≠ [] → b ≠ [] →
             rmatch r (i + length a) (b ++ rest) m' k = None) →
  rmatch r (i + length run) rest (<[n := Some run]> m) k = Some x →
  rmatch (Group n (Plus false cls) @@ r) i (run ++ rest) m k = Some x.
Proof.
  intros Hrun Hk Hx. simpl.
  apply plus_lazy_run; [done| |by rewrite take_consumed].
  intros a b Hab Ha Hb. by apply Hk.
Qed.

Lemma rmatch_group_is_Some n greedy cls r i run rest m k :
  nonEmptyAll cls run = true →
  (∀ m', is_Some (rmatch r (i + length run) rest m' k)) →
  is_Some (rmatch (Group n (Plus greedy cls) @@ r) i (run ++ rest) m k).
Proof. intros Hrun Hk. simpl. by apply plus_is_Some. Qed.

Lemma rmatch_group_inv n greedy cls r i s m k x :
  rmatch (Group n (Plus greedy cls) @@ r) i s m k = Some x →
  ∃ run rest m', s = run ++ rest ∧ nonEmptyAll cls run = true ∧
                 rmatch r (i + length run) rest m' k = Some x.
Proof.
  simpl. intros (run & rest & -> & Hrun & Hk)%plus_Some_inv. eauto 10.
Qed.

(** Both branches of an optional group. *)
Lemma rmatch_opt r r' i s m k :
  rmatch (Opt r @@ r') i s m k
  = orElse (rmatch (r @@ r') i s m k) (rmatch r' i s m k).
Proof. reflexivity. Qed.

Lemma rmatch_opt_skip r r' i s m k :
  rmatch (r @@ r') i s m k = None →
  rmatch (Opt r @@ r') i s m k = rmatch r' i s m k.
Proof. simpl. by intros ->. Qed.

Lemma rmatch_opt_take r r' i s m k x :
  rmatch (r @@ r') i s m k = Some x →
  rmatch (Opt r @@ r') i s m k = Some x.
Proof. simpl. by intros ->. Qed.

Lemma rmatch_opt_inv r r' i s m k x :
  rmatch (Opt r @@ r') i s m k = Some x →
  rmatch (r @@ r') i s m k = Some x ∨ rmatch r' i s m k = Some x.
Proof.
  simpl. destruct (rmatch r i s m _) eqn:E; simpl; [|by right].
  intros [= ->]. by left.
Qed.

Lemma rmatch_seq_assoc r1 r2 r3 i s m k :
  rmatch ((r1 @@ r2) @@ r3) i s m k = rmatch (r1 @@ r2 @@ r3) i s m k.
Proof. reflexivity. Qed.

(** An anchored pattern can only match from index 0. *)
Lemma search_bol n r i s :
  i ≠ 0 → search n (Bol @@ r) i s = None.
Proof.
  revert i. induction s as [|c s IH]; intros i Hi; simpl;
    unfold matchAt; rewrite rmatch_bol_fail by done; [done|].
  by apply IH.
Qed.

Lemma regexMatch_bol n r s :
  regexMatch n (Bol @@ r) s = matchAt n (Bol @@ r) 0 s.
Proof.
  unfold regexMatch. destruct s as [|c s]; simpl;
    destruct (matchAt _ _ _ _); try done.
  by rewrite search_bol.
Qed.

(** Start indices at which no attempt succeeds are skipped. *)
Lemma search_skip n r i pre s :
  (∀ a b, pre = a ++ b → b ≠ [] → matchAt n r (i + length a) (b ++ s) = None) →
  search n r i (pre ++ s) = search n r (i + length pre) s.
Proof.
  revert i. induction pre as [|c pre IH]; intros i H.
  - simpl. by rewrite Nat.add_0_r.
  - pose proof (H [] (c :: pre) eq_refl) as H0. simpl in H0.
    rewrite Nat.add_0_r in H0.
    change (search n r i ((c :: pre) ++ s))
      with (match matchAt n r i (c :: pre ++ s) with
            | Some m => Some (i, m)
            | None => search n r (S i) (pre ++ s)
            end).
    rewrite H0 by done. rewrite IH.
    + f_equal. simpl. lia.
    + intros a b -> Hb.
      replace (S i + length a) with (i + length (c :: a)) by (simpl; lia).
      by apply H.
Qed.

Lemma search_here n r i s x :
  matchAt n r i s = Some x → search n r i s = Some (i, x).
Proof. intros H. destruct s; simpl; by rewrite H. Qed.

Lemma search_is_Some n r i pre s :
  is_Some (matchAt n r (i + length pre) s) →
  is_Some (search n r i (pre ++ s)).
Proof.
  revert i. induction pre as [|c pre IH]; intros i [x Hx].
  - rewrite Nat.add_0_r in Hx. simpl. rewrite (search_here _ _ _ _ _ Hx).
    by eexists.
  - change (search n r i ((c :: pre) ++ s))
      with (match matchAt n r i (c :: pre ++ s) with
            | Some m => Some (i, m)
            | None => search n r (S i) (pre ++ s)
            end).
    destruct (matchAt n r i _); [by eexists|].
    apply IH. exists x. rewrite <- Hx. f_equal. simpl. lia.
Qed.
End RmatchFacts.

(** ** The three patterns *)

Section Patterns.
Implicit Types (O R S : jsstring).


Lemma notSlash_chars_fail c l r j t m k :
  notSlash c = true → rmatch (Chars (47%N :: l) @@ r) j (c :: t) m k = None.
Proof.
  unfold notSlash. intros Hc. apply rmatch_chars_fail, stripPrefix_head_ne.
  intros <-. by rewrite N.eqb_refl in Hc.
Qed.

Lemma treeUrlRegex_match O R (B : jsstring) S :
  nonEmptyAll notSlash O = true → nonEmptyAll notSlash R = true →
  nonEmptyAll notSlash B = true → nonEmptyAll dot S = true →
  regexMatch 4 treeUrlRegex (treeUrl O R B S)
  = Some [Some (treeUrl O R B S); Some O; Some R; Some B; Some S].
Proof.
  intros HO HR HB HS. unfold treeUrlRegex.
  rewrite regexMatch_bol. unfold matchAt.
  rewrite rmatch_bol. unfold treeUrl at 1. rewrite rmatch_chars.
  rewrite rmatch_group_greedy;
    [|done|done|by intros; apply notSlash_chars_fail].
  rewrite rmatch_chars.
  rewrite rmatch_group_greedy;
    [|done|done|by intros; apply notSlash_chars_fail].
  rewrite rmatch_chars.
  rewrite rmatch_group_greedy;
    [|done|done|by intros; apply notSlash_chars_fail].
  rewrite rmatch_chars.
  rewrite <- (app_nil_r S) at 1.
  rewrite rmatch_group_greedy; [|done|done|done].
  rewrite rmatch_eol. cbn. rewrite take_ge; [done|].
  unfold treeUrl. rewrite !length_app. lia.
Qed.

(** The tree pattern matches no other string. *)
Lemma treeUrlRegex_inv input m :
  regexMatch 4 treeUrlRegex input = Some m →
  ∃ O R (B : jsstring) S,
    nonEmptyAll notSlash O = true ∧ nonEmptyAll notSlash R = true ∧
    nonEmptyAll notSlash B = true ∧ nonEmptyAll dot S = true ∧
    input = treeUrl O R B S.
Proof.
  unfold treeUrlRegex. rewrite regexMatch_bol. unfold matchAt.
  rewrite rmatch_bol.
  intros (s1 & -> & H)%rmatch_chars_inv.
  apply rmatch_group_inv in H as (O & s2 & m1 & -> & HO & H).
  apply rmatch_chars_inv in H as (s3 & -> & H).
  apply rmatch_group_inv in H as (R & s4 & m2 & -> & HR & H).
  apply rmatch_chars_inv in H as (s5 & -> & H).
  apply rmatch_group_inv in H as (B & s6 & m3 & -> & HB & H).
  apply rmatch_chars_inv in H as (s7 & -> & H).
  apply rmatch_group_inv in H as (S & s8 & m4 & -> & HS & H).
  destruct s8 as [|c s8]; [|done].
  exists O, R, B, S. by rewrite app_nil_r.
Qed.


(** The tail [(?:#(.+))?$] shared by the shorthand and the generic
    pattern. *)
Lemma rmatch_fragment B i m k :
  optAll dot B = true →
  rmatch (Opt (Chars (js "#") @@ Group 3 (Plus true dot)) @@ Eol)
    i (fragment B) m k
  = k (i + length (fragment B)) []
      (match B with Some b => <[3 := Some b]> m | None => m end).
Proof.
  intros HB. destruct B as [b|]; unfold fragment.
  - rewrite rmatch_opt, rmatch_seq_assoc, rmatch_chars.
    rewrite <- (app_nil_r b) at 1.
    rewrite rmatch_group_greedy; [|done..].
    rewrite rmatch_eol, length_app.
    change (js "#" ++ b) with (35%N :: b).
    rewrite rmatch_eol_fail, orElse_None_r. f_equal. lia.
  - rewrite rmatch_opt_skip by done.
    rewrite rmatch_eol. f_equal. simpl. lia.
Qed.

Lemma rmatch_fragment_fail c t i m k :
  c ≠ 35%N →
  rmatch (Opt (Chars (js "#") @@ Group 3 (Plus true dot)) @@ Eol)
    i (c :: t) m k = None.
Proof.
  intros Hc. rewrite rmatch_opt_skip; [done|].
  rewrite rmatch_seq_assoc. apply rmatch_chars_fail.
  by apply stripPrefix_head_ne.
Qed.

Lemma wordDotDash_not_slash c : wordDotDash c = true → c ≠ 47%N.
Proof. by intros H ->. Qed.

Lemma wordDotDash_not_hash c : wordDotDash c = true → c ≠ 35%N.
Proof. by intros H ->. Qed.

Lemma fragment_head cls B :
  cls 35%N = false →
  match fragment B with [] => True | c :: _ => cls c = false end.
Proof. by destruct B. Qed.

Lemma shorthandRegex_match O R B :
  nonEmptyAll wordDotDash O = true → nonEmptyAll wordDotDash R = true →
  optAll dot B = true →
  regexMatch 3 shorthandRegex (shorthand O R B)
  = Some [Some (shorthand O R B); Some O; Some R; B].
Proof.
  intros HO HR HB. unfold shorthandRegex.
  rewrite regexMatch_bol. unfold matchAt.
  rewrite rmatch_bol. unfold shorthand at 1.
  rewrite rmatch_group_greedy; [|done|done|].
  2:{ intros j c t m' Hc. apply rmatch_chars_fail, stripPrefix_head_ne.
      intros E. by apply (wordDotDash_not_slash c). }
  rewrite rmatch_chars.
  rewrite rmatch_group_greedy; [|done|by apply fragment_head|].
  2:{ intros j c t m' Hc. apply rmatch_fragment_fail.
      by apply wordDotDash_not_hash. }
  rewrite rmatch_fragment by done.
  f_equal. rewrite take_ge.
  - by destruct B.
  - unfold shorthand. rewrite !length_app. lia.
Qed.


Lemma repoTail_match git B i m k :
  optAll dot B = true →
  rmatch repoTail i (gitSuffix git ++ fragment B) m k
  = k (i + length (gitSuffix git ++ fragment B)) []
      (match B with Some b => <[3 := Some b]> m | None => m end).
Proof.
  intros HB. unfold repoTail. destruct git; unfold gitSuffix.
  - rewrite rmatch_opt, rmatch_chars, rmatch_fragment by done.
    rewrite length_app, Nat.add_assoc.
    by destruct (k _ _ _).
  - change ([] ++ fragment B) with (fragment B).
    rewrite rmatch_opt_skip, rmatch_fragment; [done..|].
    apply rmatch_chars_fail. by destruct B.
Qed.

Lemma repoTail_is_Some git B i m k :
  optAll dot B = true →
  (∀ j m', is_Some (k j [] m')) →
  is_Some (rmatch repoTail i (gitSuffix git ++ fragment B) m k).
Proof. intros HB Hk. by rewrite repoTail_match. Qed.

(** After a proper suffix [b] of the repository name that starts
    with [.git], what is left is neither empty nor a fragment. *)
Lemma gitSuffix_rest b git B t :
  b ≠ [] → forallb notHash b = true →
  (git = true ∨ b ≠ js ".git") →
  b ++ gitSuffix git ++ fragment B = js ".git" ++ t →
  ∃ c t', t = c :: t' ∧ c ≠ 35%N.
Proof.
  change (js ".git") with [46; 103; 105; 116]%N.
  intros Hb Hhash Hgit E.
  destruct b as [|c1 [|c2 [|c3 [|c4 [|c5 b]]]]]; [done|..].
  1-3: by destruct git, B.
  - destruct Hgit as [->|Hne]; [|by simplify_eq/=].
    simplify_eq/=. by eexists _, _.
  - simpl in Hhash. repeat (apply andb_true_iff in Hhash as [? Hhash]).
    simplify_eq/=. eexists _, _. split; [done|]. by intros ->.
Qed.

(** The lazy repository group cannot stop early: after a proper
    prefix of the name the tail does not match. *)
Lemma repoTail_fail b git B i m k :
  b ≠ [] → forallb notHash b = true →
  (git = true ∨ b ≠ js ".git") →
  rmatch repoTail i (b ++ gitSuffix git ++ fragment B) m k = None.
Proof.
  intros Hb Hhash Hgit. unfold repoTail. rewrite rmatch_opt.
  assert (rmatch (Opt (Chars (js "#") @@ Group 3 (Plus true dot)) @@ Eol)
            i (b ++ gitSuffix git ++ fragment B) m k = None) as ->.
  { destruct b as [|c1 b]; [done|]. rewrite <- app_comm_cons.
    apply rmatch_fragment_fail. intros ->.
    by apply andb_true_iff in Hhash as [? _]. }
  rewrite orElse_None_r.
  destruct (stripPrefix (js ".git") (b ++ gitSuffix git ++ fragment B))
    as [t|] eqn:E; [|by apply rmatch_chars_fail].
  apply stripPrefix_Some in E.
  destruct (gitSuffix_rest _ _ _ _ Hb Hhash Hgit E) as (c & t' & -> & Hc).
  rewrite E, rmatch_chars. by apply rmatch_fragment_fail.
Qed.

Lemma fullRepoRegex_matchAt i O R git B :
  nonEmptyAll dot O = true → forallb notSlash O = true →
  nonEmptyAll dot R = true → forallb notHash R = true →
  git || negb (endsWith (js ".git") R) = true →
  optAll dot B = true →
  matchAt 3 fullRepoRegex i (genericRef O R git B)
  = Some [Some (genericRef O R git B); Some O; Some R; B].
Proof.
  intros HO HOs HR HRh Hgit HB. unfold matchAt, fullRepoRegex.
  unfold genericRef at 1. rewrite rmatch_chars.
  apply rmatch_group_lazy; [done| |].
  { intros a b m' -> Ha Hb. destruct b as [|c b]; [done|].
    rewrite forallb_app in HOs. apply andb_true_iff in HOs as [_ Hc].
    simpl in Hc. apply andb_true_iff in Hc as [Hc _].
    by apply notSlash_chars_fail. }
  rewrite rmatch_chars.
  apply rmatch_group_lazy; [done| |].
  { intros a b m' -> Ha Hb.
    rewrite forallb_app in HRh. apply andb_true_iff in HRh as [_ Hh].
    apply (repoTail_fail b); [done..|].
    destruct git; [by left|right]. intros ->.
    by rewrite endsWith_app in Hgit. }
  fold repoTail. rewrite repoTail_match by done.
  f_equal. rewrite take_ge.
  - by destruct B.
  - unfold genericRef. rewrite !length_app. lia.
Qed.

(** The generic pattern is searched for from left to right; here its
    first possible start is the reference itself. *)
Lemma fullRepoRegex_match pre O R git B :
  nonEmptyAll dot O = true → forallb notSlash O = true →
  nonEmptyAll dot R = true → forallb notHash R = true →
  git || negb (endsWith (js ".git") R) = true →
  optAll dot B = true →
  indexOf (js "github.com/") (pre ++ genericRef O R git B)
    = Some (length pre) →
  regexMatch 3 fullRepoRegex (pre ++ genericRef O R git B)
  = Some [Some (genericRef O R git B); Some O; Some R; B].
Proof.
  intros HO HOs HR HRh Hgit HB Hidx. unfold regexMatch.
  rewrite search_skip.
  - by erewrite search_here by by apply fullRepoRegex_matchAt.
  - intros a b Hab Hb. unfold matchAt, fullRepoRegex.
    apply rmatch_chars_fail. by eapply indexOf_first.
Qed.

(** Whatever precedes it, a reference in generic form makes the
    generic pattern match somewhere. *)
Lemma fullRepoRegex_is_Some pre O R git B :
  nonEmptyAll dot O = true → nonEmptyAll dot R = true →
  optAll dot B = true →
  is_Some (regexMatch 3 fullRepoRegex (pre ++ genericRef O R git B)).
Proof.
  intros HO HR HB. unfold regexMatch. apply fmap_is_Some, search_is_Some.
  unfold matchAt, fullRepoRegex, genericRef. rewrite rmatch_chars.
  apply rmatch_group_is_Some; [done|]. intros m1.
  rewrite rmatch_chars.
  apply rmatch_group_is_Some; [done|]. intros m2.
  fold repoTail. apply repoTail_is_Some; [done|]. by eexists.
Qed.
End Patterns.

(** ** The normalized subfolder *)

Section Normalize.
Implicit Types (s : jsstring).

(** [/\/$/] matches at the last code unit of a string that ends with a
    slash, and nowhere else. *)
Lemma search_trailing_slash i s :
  search 0 (Chars (js "/") @@ Eol) i s
  = if bool_decide (last s = Some 47%N)
    then Some (i + length s - 1, [Some (js "/")])
    else None.
Proof.
  revert i. induction s as [|c s IH]; intros i.
  { by rewrite bool_decide_eq_false_2. }
  change (search 0 (Chars (js "/") @@ Eol) i (c :: s))
    with (match matchAt 0 (Chars (js "/") @@ Eol) i (c :: s) with
          | Some m => Some (i, m)
          | None => search 0 (Chars (js "/") @@ Eol) (S i) s
          end).
  destruct s as [|c' s].
  - unfold matchAt. change (js "/") with [47%N]. cbn [rmatch stripPrefix].
    destruct (N.eqb_spec 47 c) as [<-|Hc].
    + cbn. replace (i + 1 - i) with 1 by lia.
      replace (i + 1 - 1) with i by lia.
      by rewrite bool_decide_eq_true_2.
    + cbn. by rewrite bool_decide_eq_false_2 by (by intros [= ->]).
  - assert (matchAt 0 (Chars (js "/") @@ Eol) i (c :: c' :: s) = None) as ->.
    { unfold matchAt. change (js "/") with [47%N]. cbn [rmatch stripPrefix].
      by destruct (47 =? c)%N. }
    rewrite IH. change (last (c :: c' :: s)) with (last (c' :: s)).
    destruct (bool_decide _); [|done]. do 2 f_equal. simpl. lia.
Qed.

(** One trailing slash is removed, ... *)
Lemma normalizeSubfolder_slash s : normalizeSubfolder (s ++ js "/") = s.
Proof.
  unfold normalizeSubfolder, replaceRegex.
  rewrite search_trailing_slash, bool_decide_eq_true_2
    by (change (js "/") with [47%N]; by rewrite last_snoc).
  rewrite length_app. change (length (js "/")) with 1.
  cbn -[js]. change (length (js "/")) with 1.
  replace (length s + 1 - 1) with (length s) by lia.
  rewrite take_app_length, drop_ge; [by rewrite app_nil_r|].
  rewrite length_app. simpl. lia.
Qed.

(** ... and a subfolder that does not end with a slash is left as it
    is. *)
Lemma normalizeSubfolder_id s :
  last s ≠ Some 47%N → normalizeSubfolder s = s.
Proof.
  intros Hlast. unfold normalizeSubfolder, replaceRegex.
  by rewrite search_trailing_slash, bool_decide_eq_false_2.
Qed.
End Normalize.

(** ** What [parseGitHubUrl] returns on each form *)


Section ParseForms.
Implicit Types (O R S pre : jsstring) (B : option jsstring).

Lemma parse_treeUrl O R (B : jsstring) S :
  nonEmptyAll notSlash O = true → nonEmptyAll notSlash R = true →
  nonEmptyAll notSlash B = true → nonEmptyAll dot S = true →
  parseGitHubUrl (treeUrl O R B S)
  = Return {| owner := O; repo := R; branch := Some B; subfolder := Some S |}.
Proof.
  intros HO HR HB HS. unfold parseGitHubUrl.
  by rewrite treeUrlRegex_match.
Qed.

(** A shorthand is not a tree URL: its first segment has no colon. *)
Lemma shorthand_not_treeUrl O R B :
  nonEmptyAll wordDotDash O = true →
  regexMatch 4 treeUrlRegex (shorthand O R B) = None.
Proof.
  intros HO. destruct (regexMatch _ _ _) as [m|] eqn:E; [|done].
  apply treeUrlRegex_inv in E as (O' & R' & B' & S' & _ & _ & _ & _ & E).
  exfalso. unfold shorthand, treeUrl in E. js_literals.
  destruct O as [|c1 [|c2 [|c3 [|c4 [|c5 [|c6 O]]]]]]; by simplify_eq/=.
Qed.

Lemma parse_shorthand O R B :
  nonEmptyAll wordDotDash O = true → nonEmptyAll wordDotDash R = true →
  optAll dot B = true →
  parseGitHubUrl (shorthand O R B)
  = Return {| owner := O; repo := R; branch := B; subfolder := None |}.
Proof.
  intros HO HR HB. unfold parseGitHubUrl.
  rewrite shorthand_not_treeUrl, shorthandRegex_match by done.
  by destruct B.
Qed.

Lemma parse_generic pre O R git B :
  nonEmptyAll dot O = true → forallb notSlash O = true →
  nonEmptyAll dot R = true → forallb notHash R = true →
  git || negb (endsWith (js ".git") R) = true →
  optAll dot B = true →
  indexOf (js "github.com/") (pre ++ genericRef O R git B)
    = Some (length pre) →
  regexMatch 4 treeUrlRegex (pre ++ genericRef O R git B) = None →
  regexMatch 3 shorthandRegex (pre ++ genericRef O R git B) = None →
  parseGitHubUrl (pre ++ genericRef O R git B)
  = Return {| owner := O; repo := R; branch := B; subfolder := None |}.
Proof.
  intros HO HOs HR HRh Hgit HB Hidx Htree Hshort. unfold parseGitHubUrl.
  rewrite Htree, Hshort, fullRepoRegex_match by done.
  by destruct B.
Qed.

Lemma parse_generic_succeeds pre O R git B :
  nonEmptyAll dot O = true → nonEmptyAll dot R = true →
  optAll dot B = true →
  ∃ ref, parseGitHubUrl (pre ++ genericRef O R git B) = Return ref.
Proof.
  intros HO HR HB. unfold parseGitHubUrl.
  destruct (regexMatch 4 _ _); [by eexists|].
  destruct (regexMatch 3 shorthandRegex _); [by eexists|].
  destruct (fullRepoRegex_is_Some pre O R git B) as [m ->]; [done..|].
  by eexists.
Qed.

(** Only the tree branch of the parser fills in the subfolder. *)
Lemma parse_subfolder_inv input ref S :
  parseGitHubUrl input = Return ref → subfolder ref = Some S →
  ∃ O R (B : jsstring),
    nonEmptyAll notSlash O = true ∧ nonEmptyAll notSlash R = true ∧
    nonEmptyAll notSlash B = true ∧ nonEmptyAll dot S = true ∧
    input = treeUrl O R B S ∧
    ref = {| owner := O; repo := R; branch := Some B; subfolder := Some S |}.
Proof.
  unfold parseGitHubUrl.
  destruct (regexMatch 4 treeUrlRegex input) as [m|] eqn:E.
  - destruct (treeUrlRegex_inv _ _ E)
      as (O & R & B & S' & HO & HR & HB & HS & ->).
    rewrite treeUrlRegex_match in E by done. injection E as <-.
    intros [= <-] [= <-]. by exists O, R, B.
  - destruct (regexMatch 3 shorthandRegex input);
      [by intros [= <-]|].
    destruct (regexMatch 3 fullRepoRegex input); [by intros [= <-]|done].
Qed.
End ParseForms.



(** ** Facts about the extraction loop *)

Section LoopFacts.
Context {W : Type} `{FsExtra W}.
Variables (prefix outputDir nsub : jsstring).
Implicit Types (st : LoopState W) (entry : Entry) (entries : list Entry).

Lemma stripPrefix_short (pat s : jsstring) :
  length s < length pat → stripPrefix pat s = None.
Proof.
  revert s. induction pat as [|a pat IH]; intros [|b s]; simpl;
    try done; try lia.
  intros Hlen. destruct (N.eqb a b); [|done]. apply IH. lia.
Qed.

(** A pattern longer than the string does not occur in it. *)
Lemma replaceFirst_short (pat s : jsstring) :
  length s < length pat → replaceFirst pat s = s.
Proof.
  induction s as [|c s IH]; intros Hlen.
  - simpl. by rewrite stripPrefix_short.
  - change (replaceFirst pat (c :: s))
      with (match stripPrefix pat (c :: s) with
            | Some rest => rest
            | None => c :: replaceFirst pat s
            end).
    rewrite stripPrefix_short by done. f_equal. apply IH. simpl in Hlen. lia.
Qed.

Lemma inScope_spec entry :
  inScope prefix nsub entry = true ↔
  relativePath prefix entry = nsub ∨
  ∃ rest, relativePath prefix entry = nsub ++ js "/" ++ rest.
Proof.
  unfold inScope.
  rewrite orb_true_iff, bool_decide_eq_true, startsWith_true.
  by setoid_rewrite <- app_assoc.
Qed.

Lemma extractEntry_out st entry :
  inScope prefix nsub entry = false →
  extractEntry prefix outputDir nsub st entry = (st, None).
Proof. intros Hout. unfold extractEntry. by rewrite Hout. Qed.

Lemma processEntry_out st entry :
  inScope prefix nsub entry = false →
  processEntry prefix outputDir nsub st entry = st.
Proof. intros Hout. unfold processEntry. by rewrite extractEntry_out. Qed.

Lemma resultOf_out st entry :
  inScope prefix nsub entry = false ↔
  resultOf prefix outputDir nsub st entry = Drained.
Proof.
  unfold resultOf. destruct (inScope _ _ _); [|done].
  split; [done|]. destruct (_.2); [done|]. by destruct (type entry).
Qed.

Lemma warningsOf_app (l1 l2 : list SpinnerEvent) :
  warningsOf (l1 ++ l2) = warningsOf l1 ++ warningsOf l2.
Proof. apply List.filter_app. Qed.

(** The effect of one iteration on the variables of the loop, by what
    became of the entry. *)
Lemma processEntry_effect st entry :
  let st' := processEntry prefix outputDir nsub st entry in
  let r := resultOf prefix outputDir nsub st entry in
  matchedSomething st' = matchedSomething st || inScope prefix nsub entry ∧
  filesExtracted st' = filesExtracted st + (if isWritten r then 1 else 0) ∧
  warningsOf (spinner st')
  = warningsOf (spinner st) ++
    match r with
    | Raised err => [warning (path entry, err)]
    | _ => []
    end.
Proof.
  unfold processEntry, resultOf, extractEntry.
  destruct (inScope prefix nsub entry) eqn:Hin.
  2:{ simpl. rewrite orb_false_r, Nat.add_0_r, app_nil_r. done. }
  rewrite orb_true_r.
  destruct (type entry).
  - destruct (ensureDir _ _) as [w [err|]]; simpl;
      rewrite ?warningsOf_app, ?Nat.add_0_r, ?app_nil_r; done.
  - destruct (ensureDir _ _) as [w [err|]]; simpl.
    { rewrite ?warningsOf_app, ?Nat.add_0_r, ?app_nil_r; done. }
    destruct (writeStream _ _ _) as [w' [err|]]; simpl;
      rewrite ?warningsOf_app, ?Nat.add_0_r, ?app_nil_r; try done.
    split; [done|]. split; [lia|done].
Qed.

(** Only a file counts as written. *)
Lemma resultOf_written st entry :
  resultOf prefix outputDir nsub st entry = FileWritten →
  type entry = File ∧ inScope prefix nsub entry = true.
Proof.
  unfold resultOf. destruct (inScope _ _ _); [|done].
  destruct (_.2); [done|]. by destruct (type entry).
Qed.

Lemma extractLoop_cons entry entries st :
  extractLoop prefix outputDir nsub (entry :: entries) st
  = extractLoop prefix outputDir nsub entries
      (processEntry prefix outputDir nsub st entry).
Proof. reflexivity. Qed.

Lemma extractLoop_app l1 l2 st :
  extractLoop prefix outputDir nsub (l1 ++ l2) st
  = extractLoop prefix outputDir nsub l2
      (extractLoop prefix outputDir nsub l1 st).
Proof. apply fold_left_app. Qed.

Lemma extractLoop_matched entries st :
  matchedSomething (extractLoop prefix outputDir nsub entries st)
  = matchedSomething st || existsb (inScope prefix nsub) entries.
Proof.
  revert st. induction entries as [|e es IH]; intros st.
  - simpl. by rewrite orb_false_r.
  - rewrite extractLoop_cons, IH.
    destruct (processEntry_effect st e) as (-> & _ & _).
    simpl. by rewrite orb_assoc.
Qed.

Lemma extractLoop_filesExtracted entries st :
  filesExtracted (extractLoop prefix outputDir nsub entries st)
  = filesExtracted st
    + countWritten (results prefix outputDir nsub entries st).
Proof.
  revert st. induction entries as [|e es IH]; intros st.
  - simpl. unfold countWritten. simpl. lia.
  - rewrite extractLoop_cons, IH.
    destruct (processEntry_effect st e) as (_ & -> & _).
    unfold countWritten. simpl.
    destruct (isWritten _); simpl; lia.
Qed.

(** Without an entry in scope the loop changes nothing. *)
Lemma extractLoop_none entries st :
  Forall (λ e, inScope prefix nsub e = false) entries →
  extractLoop prefix outputDir nsub entries st = st.
Proof.
  intros Hall. revert st.
  induction Hall as [|e es He _ IH]; intros st; [done|].
  by rewrite extractLoop_cons, processEntry_out, IH.
Qed.

(** Directories leave the counter alone and add warnings at most. *)
Lemma processEntry_directory st entry :
  (inScope prefix nsub entry = true → type entry = Directory) →
  let st' := processEntry prefix outputDir nsub st entry in
  filesExtracted st' = filesExtracted st ∧
  ∃ warns, spinner st' = spinner st ++ warns ∧
           forallb isWarn warns = true.
Proof.
  intros Hdir. unfold processEntry, extractEntry.
  destruct (inScope prefix nsub entry) eqn:Hin.
  - rewrite Hdir by done.
    destruct (ensureDir _ _) as [w [err|]]; simpl.
    + split; [done|]. by eexists [_].
    + split; [done|]. exists []. by rewrite app_nil_r.
  - simpl. split; [done|]. exists []. by rewrite app_nil_r.
Qed.

Lemma extractLoop_directories entries st :
  Forall (λ e, inScope prefix nsub e = true → type e = Directory) entries →
  let st' := extractLoop prefix outputDir nsub entries st in
  filesExtracted st' = filesExtracted st ∧
  ∃ warns, spinner st' = spinner st ++ warns ∧
           forallb isWarn warns = true.
Proof.
  intros Hall. revert st.
  induction Hall as [|e es He _ IH]; intros st.
  - simpl. split; [done|]. exists []. by rewrite app_nil_r.
  - rewrite extractLoop_cons.
    destruct (processEntry_directory st e He) as (Hn & ws1 & Hs1 & Hw1).
    destruct (IH (processEntry prefix outputDir nsub st e))
      as (Hn' & ws2 & Hs2 & Hw2).
    simpl in *. split; [congruence|].
    exists (ws1 ++ ws2). rewrite Hs2, Hs1, <- app_assoc.
    split; [done|]. rewrite forallb_app. by rewrite Hw1, Hw2.
Qed.
End LoopFacts.

(** ** The calls of the loop *)

Section TraceFacts.
Context {W : Type} `{FsExtra W}.
Variables (prefix outputDir nsub : jsstring).
Implicit Types (st : LoopState W) (entry : Entry) (entries : list Entry)
  (t added : list FsCall).

Local Ltac count_calls :=
  unfold warningsOf, successfulWrites, failedCalls; cbn; lia.

Lemma successfulWrites_app t1 t2 :
  successfulWrites (t1 ++ t2) = successfulWrites t1 + successfulWrites t2.
Proof. unfold successfulWrites. by rewrite List.filter_app, length_app. Qed.

Lemma failedCalls_app t1 t2 :
  failedCalls (t1 ++ t2) = failedCalls t1 + failedCalls t2.
Proof. unfold failedCalls. by rewrite List.filter_app, length_app. Qed.

Lemma ensuredPaths_app t1 t2 :
  ensuredPaths (t1 ++ t2) = ensuredPaths t1 ++ ensuredPaths t2.
Proof. apply omap_app. Qed.

(** One iteration over the recorded file system does what it does over
    the plain one, and adds the calls it makes to the record. *)
Lemma processEntry_traced st t entry :
  ∃ added,
    processEntry (H := traced) prefix outputDir nsub (withTrace st t) entry
    = withTrace (processEntry prefix outputDir nsub st entry) (t ++ added) ∧
    filesExtracted (processEntry prefix outputDir nsub st entry)
    = filesExtracted st + successfulWrites added ∧
    length (warningsOf (spinner (processEntry prefix outputDir nsub st entry)))
    = length (warningsOf (spinner st)) + failedCalls added ∧
    (∀ p c r, WriteStreamCall p c r ∈ added →
       inScope prefix nsub entry = true ∧ type entry = File ∧
       p = localPath prefix outputDir nsub entry ∧ c = content entry) ∧
    (inScope prefix nsub entry = true → type entry = File →
     ensuredPaths added
     = [Path.dirname (localPath prefix outputDir nsub entry)] ∧
     successfulWrites added + failedCalls added = 1).
Proof.
  unfold processEntry, extractEntry.
  destruct (inScope prefix nsub entry) eqn:Hin.
  2:{ exists []. rewrite app_nil_r. split_and!; [done|count_calls|count_calls| |done].
      intros p c r Hel. by apply elem_of_nil in Hel. }
  destruct (type entry) eqn:Hty.
  - cbn [ensureDir traced withTrace fs fst snd].
    destruct (ensureDir _ (fs st)) as [w1 [e1|]]; cbn.
    + exists [EnsureDirCall (localPath prefix outputDir nsub entry) (Some e1)].
      rewrite warningsOf_app, length_app.
      split_and!; [done|count_calls|count_calls| |done].
      intros p c r Hel. by apply list_elem_of_singleton in Hel.
    + exists [EnsureDirCall (localPath prefix outputDir nsub entry) None].
      split_and!; [done|count_calls|count_calls| |done].
      intros p c r Hel. by apply list_elem_of_singleton in Hel.
  - cbn [ensureDir writeStream traced withTrace fs fst snd].
    destruct (ensureDir _ (fs st)) as [w1 [e1|]]; cbn.
    + eexists [EnsureDirCall _ (Some e1)].
      rewrite warningsOf_app, length_app.
      split_and!; [done|count_calls|count_calls| |done].
      intros p c r Hel. by apply list_elem_of_singleton in Hel.
    + destruct (writeStream _ _ w1) as [w2 [e2|]]; cbn.
      * eexists [EnsureDirCall _ None; WriteStreamCall _ _ (Some e2)].
        rewrite <- app_assoc, warningsOf_app, length_app.
        split_and!; [done|count_calls|count_calls| |done].
        intros p c r [Hel|Hel%list_elem_of_singleton]%elem_of_cons;
          [done|]. by injection Hel as -> -> _.
      * eexists [EnsureDirCall _ None; WriteStreamCall _ _ None].
        rewrite <- app_assoc.
        split_and!; [done|count_calls| | |done].
        { rewrite warningsOf_app, length_app. count_calls. }
        intros p c r [Hel|Hel%list_elem_of_singleton]%elem_of_cons;
          [done|]. by injection Hel as -> -> _.
Qed.

(** The loop over the recorded file system is the loop over the plain
    one, with its calls added to the record. *)
Lemma extractLoop_traced entries st t :
  ∃ added,
    extractLoop (H := traced) prefix outputDir nsub entries (withTrace st t)
    = withTrace (extractLoop prefix outputDir nsub entries st) (t ++ added) ∧
    filesExtracted (extractLoop prefix outputDir nsub entries st)
    = filesExtracted st + successfulWrites added ∧
    length (warningsOf (spinner (extractLoop prefix outputDir nsub entries st)))
    = length (warningsOf (spinner st)) + failedCalls added ∧
    (∀ p c r, WriteStreamCall p c r ∈ added →
       ∃ e, e ∈ entries ∧ inScope prefix nsub e = true ∧ type e = File ∧
            p = localPath prefix outputDir nsub e ∧ c = content e) ∧
    (Forall (λ e, inScope prefix nsub e = true ∧ type e = File) entries →
     ensuredPaths added
     = (λ e, Path.dirname (localPath prefix outputDir nsub e)) <$> entries ∧
     successfulWrites added + failedCalls added = length entries).
Proof.
  revert st t. induction entries as [|entry entries IH]; intros st t.
  - exists []. rewrite app_nil_r. split_and!; [done|count_calls|count_calls| |done].
    intros p c r Hel. by apply elem_of_nil in Hel.
  - destruct (processEntry_traced st t entry)
      as (a1 & Hrun1 & Hn1 & Hw1 & Hcalls1 & Hfiles1).
    destruct (IH (processEntry prefix outputDir nsub st entry) (t ++ a1))
      as (a2 & Hrun2 & Hn2 & Hw2 & Hcalls2 & Hfiles2).
    exists (a1 ++ a2). rewrite !extractLoop_cons, Hrun1, Hrun2, app_assoc.
    rewrite successfulWrites_app, failedCalls_app, ensuredPaths_app.
    split_and!; [done|lia|lia| |].
    + intros p c r [Hel|Hel]%elem_of_app.
      * exists entry. destruct (Hcalls1 _ _ _ Hel) as (? & ? & ? & ?).
        split_and!; try done. apply elem_of_cons. by left.
      * destruct (Hcalls2 _ _ _ Hel) as (e & ? & ? & ? & ? & ?).
        exists e. split_and!; try done. apply elem_of_cons. by right.
    + intros [[Hin Hty] Hall]%Forall_cons.
      destruct (Hfiles1 Hin Hty) as [-> ?].
      destruct (Hfiles2 Hall) as [-> ?].
      split; [done|]. cbn [length]. lia.
Qed.

End TraceFacts.

(** ** Facts about a run *)

Section RunFacts.
Context {W : Type} `{FsExtra W}.
Implicit Types (env : Env) (w : W) (ref : RepoRef).

(** A run whose archive arrives goes on to probe the target. *)
Lemma downloadFolder_guard env repoUrl subfolder target w ref finalBranch
    entries :
  archiveOf env repoUrl = Some (ref, finalBranch, entries) →
  downloadFolder env repoUrl subfolder target w
  = match targetGuard env (outputDirOf env subfolder target) w with
    | Some msg => refused env ref w msg
    | None =>
        extractPhase env subfolder (prefixOf ref finalBranch)
          (outputDirOf env subfolder target) (tempDirOf env) entries w
          (fetchingLog env ref)
    end.
Proof.
  unfold archiveOf, downloadFolder.
  destruct (parseGitHubUrl repoUrl) as [ref'|]; [|done].
  destruct (resolveBranch env ref') as [fb|]; [|done].
  destruct (fetch env _) as [res|]; [|done].
  destruct (ok res); [|done]. simpl.
  destruct (body res) as [es|]; [|done]. simpl.
  by intros [= -> -> ->].
Qed.

(** Every way a run can end before the extraction phase sets the exit
    code and leaves the file system alone, but for the removal of the
    scratch directory. *)
Lemma downloadFolder_guard_failure env repoUrl subfolder target w msg :
  targetGuard env (outputDirOf env subfolder target) w = Some msg →
  let o := downloadFolder env repoUrl subfolder target w in
  exitCode o = Some 1 ∧
  (finalFs o = w ∨ finalFs o = (remove (tempDirOf env) w).1).
Proof.
  intros Hguard. unfold downloadFolder.
  destruct (parseGitHubUrl repoUrl) as [ref|]; [|by auto].
  destruct (resolveBranch env ref) as [fb|]; [|by auto].
  destruct (fetch env _) as [res|]; [|by auto].
  destruct (ok res); [|by auto]. simpl.
  destruct (body res) as [es|]; [|by auto].
  rewrite Hguard. by auto.
Qed.
End RunFacts.

(** ** The reference parser: claims *)

(** C7.  The parser tries the tree-URL pattern, then the shorthand
    pattern, then the generic pattern, and the first that matches alone
    decides the result.  Every tree URL
    [https://github.com/O/R/tree/B/S], with [O], [R] and [B] non-empty
    and free of slashes and [S] a non-empty path, is parsed into owner
    [O], repo [R], branch [B] and subfolder [S]; and a result carries a
    subfolder only when the input is such a tree URL. *)
Theorem parseGitHubUrl_tree_url_first :
  (∀ O R B S : jsstring,
     nonEmptyAll notSlash O = true → nonEmptyAll notSlash R = true →
     nonEmptyAll notSlash B = true → nonEmptyAll dot S = true →
     parseGitHubUrl (treeUrl O R B S)
     = Return {| owner := O; repo := R; branch := Some B;
                 subfolder := Some S |}) ∧
  (∀ input m,
     regexMatch 4 treeUrlRegex input = Some m →
     parseGitHubUrl input
     = Return {| owner := groupStr m 1; repo := groupStr m 2;
                 branch := group m 3; subfolder := group m 4 |}) ∧
  (∀ input m,
     regexMatch 4 treeUrlRegex input = None →
     regexMatch 3 shorthandRegex input = Some m →
     parseGitHubUrl input
     = Return {| owner := groupStr m 1; repo := groupStr m 2;
                 branch := group m 3; subfolder := None |}) ∧
  (∀ input m,
     regexMatch 4 treeUrlRegex input = None →
     regexMatch 3 shorthandRegex input = None →
     regexMatch 3 fullRepoRegex input = Some m →
     parseGitHubUrl input
     = Return {| owner := groupStr m 1; repo := groupStr m 2;
                 branch := group m 3; subfolder := None |}) ∧
  (∀ input,
     regexMatch 4 treeUrlRegex input = None →
     regexMatch 3 shorthandRegex input = None →
     regexMatch 3 fullRepoRegex input = None →
     parseGitHubUrl input = Throw invalidFormat) ∧
  (∀ input ref S,
     parseGitHubUrl input = Return ref → subfolder ref = Some S →
     ∃ O R B : jsstring,
       nonEmptyAll notSlash O = true ∧ nonEmptyAll notSlash R = true ∧
       nonEmptyAll notSlash B = true ∧ nonEmptyAll dot S = true ∧
       input = treeUrl O R B S ∧
       ref = {| owner := O; repo := R; branch := Some B;
                subfolder := Some S |}).
Proof.
  split; [exact parse_treeUrl|].
  split; [by intros input m Ht; unfold parseGitHubUrl; rewrite Ht|].
  split; [by intros input m Ht Hs; unfold parseGitHubUrl; rewrite Ht, Hs|].
  split; [by intros input m Ht Hs Hg; unfold parseGitHubUrl;
            rewrite Ht, Hs, Hg|].
  split; [by intros input Ht Hs Hg; unfold parseGitHubUrl;
            rewrite Ht, Hs, Hg|].
  exact parse_subfolder_inv.
Qed.

Lemma parseGitHubUrl_tree_url_first_witness :
  parseGitHubUrl (js "https://github.com/O/R/tree/B/sub/path")
  = Return {| owner := js "O"; repo := js "R"; branch := Some (js "B");
              subfolder := Some (js "sub/path") |}.
Proof.
  apply (proj1 parseGitHubUrl_tree_url_first
           (js "O") (js "R") (js "B") (js "sub/path")); reflexivity.
Defined.

(** A tree URL is also matched by the generic pattern, which on its own
    would read the rest of the URL as the repository name; the tree
    pattern is tried first and its result is not mixed with this one. *)
Example tree_url_generic_reading :
  regexMatch 3 fullRepoRegex (js "https://github.com/O/R/tree/B/sub/path")
  = Some [Some (js "github.com/O/R/tree/B/sub/path"); Some (js "O");
          Some (js "R/tree/B/sub/path"); None].
Proof. vm_compute. reflexivity. Qed.




(** C10, as the code has it.  The generic pattern is searched for
    anywhere in the input: a string that ends with
    [github.com/O/R], [github.com/O/R.git], or either followed by [#B],
    always parses, whatever precedes [github.com].  The result is owner
    [O] and repo [R] when neither the tree nor the shorthand pattern
    matches the input, no [github.com/] occurs earlier in it, [O] has no
    slash, [R] has no [#] and, when no [.git] follows it, does not end
    in [.git] itself.  An input such as [notgithub.com/o/r] is accepted
    although it has none of the documented forms. *)
Theorem parseGitHubUrl_generic_unanchored :
  (∀ pre O R git B,
     nonEmptyAll dot O = true → nonEmptyAll dot R = true →
     optAll dot B = true →
     ∃ ref, parseGitHubUrl (pre ++ genericRef O R git B) = Return ref) ∧
  (∀ pre O R git B,
     nonEmptyAll dot O = true → forallb notSlash O = true →
     nonEmptyAll dot R = true → forallb notHash R = true →
     git || negb (endsWith (js ".git") R) = true →
     optAll dot B = true →
     indexOf (js "github.com/") (pre ++ genericRef O R git B)
       = Some (length pre) →
     regexMatch 4 treeUrlRegex (pre ++ genericRef O R git B) = None →
     regexMatch 3 shorthandRegex (pre ++ genericRef O R git B) = None →
     parseGitHubUrl (pre ++ genericRef O R git B)
     = Return {| owner := O; repo := R; branch := B; subfolder := None |}) ∧
  parseGitHubUrl (js "notgithub.com/o/r")
  = Return {| owner := js "o"; repo := js "r"; branch := None;
              subfolder := None |}.
Proof.
  split; [exact parse_generic_succeeds|].
  split; [exact parse_generic|].
  vm_compute. reflexivity.
Qed.

Lemma parseGitHubUrl_generic_unanchored_witness :
  parseGitHubUrl (js "ssh://git@github.com/owner/repo.git#dev")
  = Return {| owner := js "owner"; repo := js "repo";
              branch := Some (js "dev"); subfolder := None |}.
Proof.
  apply (proj1 (proj2 parseGitHubUrl_generic_unanchored)
           (js "ssh://git@") (js "owner") (js "repo") true (Some (js "dev")));
    reflexivity.
Defined.

(** C10 as stated fails: this input ends with [github.com/o/r], yet the
    shorthand pattern matches it first and the result is owner [a] and
    repo [b]. *)
Lemma parseGitHubUrl_generic_counterexample :
  parseGitHubUrl (js "a/b#github.com/o/r")
  = Return {| owner := js "a"; repo := js "b";
              branch := Some (js "github.com/o/r"); subfolder := None |}.
Proof. vm_compute. reflexivity. Qed.

(** Nor is the first [github.com/] of an input skipped for a later
    one. *)
Example generic_leftmost_match :
  parseGitHubUrl (js "github.com/a/github.com/o/r")
  = Return {| owner := js "a"; repo := js "github.com/o/r"; branch := None;
              subfolder := None |}.
Proof. vm_compute. reflexivity. Qed.

(** ** The extraction loop: claims *)

(** C1.  An entry is in scope exactly when its repo-relative path (its
    recorded path without the leading [<repo>-<branch>/]) is the
    normalized subfolder or starts with the subfolder followed by a
    slash; an entry out of scope is drained: nothing is raised and the
    file system, the counter, the flag and the spinner stay as they
    were.  On the archive [repo-branch/], [repo-branch/keep/a.txt],
    [repo-branch/keep/sub/b.txt], [repo-branch/skip/c.txt] with
    subfolder [keep], the loop writes [a.txt] and [sub/b.txt] under the
    output directory and nothing else, and ends with a count of 2 and
    the flag set. *)
Theorem extract_in_scope_only :
  (∀ (W : Type) (F : FsExtra W) ref finalBranch subfolder outputDir
     (st : LoopState W) entry,
     let prefix := prefixOf ref finalBranch in
     let nsub := normalizeSubfolder subfolder in
     (∀ rel, path entry = prefix ++ rel → relativePath prefix entry = rel) ∧
     (inScope prefix nsub entry = true ↔
        relativePath prefix entry = nsub ∨
        ∃ rest, relativePath prefix entry = nsub ++ js "/" ++ rest) ∧
     matchedSomething (processEntry prefix outputDir nsub st entry)
       = matchedSomething st || inScope prefix nsub entry ∧
     (inScope prefix nsub entry = false →
        extractEntry prefix outputDir nsub st entry = (st, None) ∧
        processEntry prefix outputDir nsub st entry = st)) ∧
  (let st := extractLoop (js "repo-branch/") (js "/work/output")
               (normalizeSubfolder (js "keep")) Demo.archive
               {| fs := Demo.vacant; filesExtracted := 0;
                  matchedSomething := false; spinner := [] |} in
   filesExtracted st = 2 ∧ matchedSomething st = true ∧
   warningsOf (spinner st) = [] ∧
   MemFs.nodes (fs st)
   = {[ js "/work" := MemFs.DirNode; js "/work/output" := MemFs.DirNode;
        js "/work/output/a.txt" := MemFs.FileNode [97%N];
        js "/work/output/sub" := MemFs.DirNode;
        js "/work/output/sub/b.txt" := MemFs.FileNode [98%N] ]}) ∧
  (let o := Demo.run Demo.archive "keep" Demo.emptyFs in
   exitCode o = None ∧
   last (spinnerLog o)
   = Some (Succeed (js "Successfully downloaded keep to /work/output (2 files)")) ∧
   MemFs.nodes (finalFs o)
   = {[ js "/tmp" := MemFs.DirNode; js "/tmp/gh-folder-42" := MemFs.DirNode;
        js "/work" := MemFs.DirNode; js "/work/output" := MemFs.DirNode;
        js "/work/output/a.txt" := MemFs.FileNode [97%N];
        js "/work/output/sub" := MemFs.DirNode;
        js "/work/output/sub/b.txt" := MemFs.FileNode [98%N] ]}).
Proof.
  split; [|split].
  - intros W F ref finalBranch subfolder outputDir st entry prefix nsub.
    split; [|split; [|split]].
    + intros rel Hrel. unfold relativePath. rewrite Hrel.
      apply replaceFirst_prefix.
    + apply inScope_spec.
    + by destruct (processEntry_effect prefix outputDir nsub st entry)
        as (-> & _).
    + intros Hout. split.
      * by apply extractEntry_out.
      * by apply processEntry_out.
  - intros st. repeat split; vm_compute; reflexivity.
  - intros o. repeat split; vm_compute; reflexivity.
Qed.

Lemma extract_in_scope_only_witness :
  let st := {| fs := Demo.vacant; filesExtracted := 7;
               matchedSomething := false; spinner := [] |} in
  processEntry (js "repo-branch/") (js "/work/output") (js "keep") st
    (Demo.file "repo-branch/skip/c.txt" [99%N]) = st.
Proof.
  intros st.
  apply (proj1 extract_in_scope_only MemFs.memfs _
           {| owner := js "owner"; repo := js "repo";
              branch := Some (js "branch"); subfolder := None |}
           (js "branch") (js "keep") (js "/work/output") st
           (Demo.file "repo-branch/skip/c.txt" [99%N])).
  reflexivity.
Defined.

(** C2.  When the archive has arrived, the target has been accepted and
    created, and the loop ends without any entry in scope, the run fails:
    the spinner reports that the subfolder was not found in the repo,
    right after the fetching message and without any warning, and the
    exit code is set to 1. *)
Theorem subfolder_not_found_fails {W : Type} `{FsExtra W} env repoUrl
    subfolder target (w w1 w2 : W) ref finalBranch entries :
  archiveOf env repoUrl = Some (ref, finalBranch, entries) →
  targetGuard env (outputDirOf env subfolder target) w = None →
  ensureDir (tempDirOf env) w = (w1, None) →
  ensureDir (outputDirOf env subfolder target) w1 = (w2, None) →
  existsb (inScope (prefixOf ref finalBranch) (normalizeSubfolder subfolder))
    entries = false →
  downloadFolder env repoUrl subfolder target w
  = {| finalFs := (remove (tempDirOf env) w2).1;
       exitCode := Some 1;
       spinnerLog := fetchingLog env ref ++ [Fail (notFound subfolder)] |}.
Proof.
  intros Harch Hguard Htemp Hout Hnone.
  rewrite (downloadFolder_guard _ _ _ _ _ _ _ _ Harch), Hguard.
  unfold extractPhase. rewrite Htemp, Hout.
  rewrite extractLoop_none.
  - done.
  - apply Forall_forall. intros e He.
    destruct (inScope _ _ e) eqn:Hin; [|done].
    assert (existsb (inScope (prefixOf ref finalBranch)
                       (normalizeSubfolder subfolder)) entries = true);
      [|congruence].
    apply existsb_exists. exists e. split; [|done]. by apply list_elem_of_In.
Qed.

Lemma subfolder_not_found_fails_witness :
  let o := Demo.run Demo.archive "docs" Demo.emptyFs in
  exitCode o = Some 1 ∧
  spinnerLog o
  = [Start (js "Preparing download...");
     Text (js "Fetching ZIP from branch");
     Fail (js "Subfolder " ++ [34%N] ++ js "docs" ++ [34%N]
           ++ js " not found in repo.")].
Proof.
  intros o. unfold o, Demo.run.
  rewrite (subfolder_not_found_fails (Demo.env Demo.archive)
             (js "owner/repo#branch") (js "docs") (Some (js "output"))
             Demo.emptyFs
             (ensureDir (js "/tmp/gh-folder-42") Demo.emptyFs).1
             (ensureDir (js "/work/output")
                (ensureDir (js "/tmp/gh-folder-42") Demo.emptyFs).1).1
             Demo.ownerRepo (js "branch") Demo.archive);
    [split| ..]; vm_compute; reflexivity.
Defined.



(** C4, as the code has it.  For an entry in scope, the destination is
    the output directory joined with what is left of the repo-relative
    path once the leading [subfolder/] is removed; in particular the
    entry [subfolder/] itself goes to the output directory.  When the
    repo-relative path is the subfolder itself, without a slash, nothing
    is removed and the destination is the output directory joined with
    the subfolder. *)
Theorem localPath_reroots prefix outputDir nsub entry :
  inScope prefix nsub entry = true →
  (∃ rest, relativePath prefix entry = nsub ++ js "/" ++ rest ∧
           localPath prefix outputDir nsub entry = Path.join outputDir rest) ∨
  (relativePath prefix entry = nsub ∧
   localPath prefix outputDir nsub entry = Path.join outputDir nsub).
Proof.
  intros [Heq|[rest Hrest]]%inScope_spec.
  - right. split; [done|]. unfold localPath. rewrite Heq.
    rewrite replaceFirst_short; [done|]. rewrite length_app. simpl. lia.
  - left. exists rest. split; [done|]. unfold localPath. rewrite Hrest.
    by rewrite app_assoc, replaceFirst_prefix.
Qed.

Lemma localPath_reroots_witness :
  localPath (js "repo-branch/") (js "/work/output") (js "keep")
    (Demo.file "repo-branch/keep/sub/b.txt" [98%N])
  = js "/work/output/sub/b.txt" ∧
  localPath (js "repo-branch/") (js "/work/output") (js "keep")
    (Demo.dir "repo-branch/keep/")
  = js "/work/output".
Proof.
  split.
  - destruct (localPath_reroots (js "repo-branch/") (js "/work/output")
                (js "keep") (Demo.file "repo-branch/keep/sub/b.txt" [98%N]))
      as [(rest & Hrest & ->)|[Heq _]]; [reflexivity| |by vm_compute in Heq].
    vm_compute in Hrest. injection Hrest as <-. vm_compute. reflexivity.
  - destruct (localPath_reroots (js "repo-branch/") (js "/work/output")
                (js "keep") (Demo.dir "repo-branch/keep/"))
      as [(rest & Hrest & ->)|[Heq _]]; [reflexivity| |by vm_compute in Heq].
    vm_compute in Hrest. injection Hrest as <-. vm_compute. reflexivity.
Defined.

(** C4 as stated fails: an entry whose repo-relative path is the
    subfolder itself is in scope and lands one level below the output
    directory, not on it. *)
Lemma localPath_subfolder_counterexample :
  let entry := Demo.file "repo-branch/keep" [107%N] in
  inScope (js "repo-branch/") (js "keep") entry = true ∧
  relativePath (js "repo-branch/") entry = js "keep" ∧
  localPath (js "repo-branch/") (js "/work/output") (js "keep") entry
  = js "/work/output/keep" ∧
  localPath (js "repo-branch/") (js "/work/output") (js "keep") entry
  ≠ js "/work/output".
Proof. intros entry. repeat split; by vm_compute. Qed.

(** ** The target guard: claims *)

(** C5.  Once the archive has arrived the output path is probed.  A
    regular file there ends the run with the message that the target
    exists as a file; a directory with at least one entry ends it with
    the message that the directory is not empty; an empty directory and
    a path that is not found ([ENOENT]) let the run go on to the
    extraction phase, which starts by creating the directory; any other
    error of the probe ends the run with a message that carries the
    message of the error.  A run that ends here sets the exit code to 1
    and leaves the file system as it was. *)
Theorem targetGuard_outcomes {W : Type} `{FsExtra W} env repoUrl subfolder
    target (w : W) ref finalBranch entries :
  archiveOf env repoUrl = Some (ref, finalBranch, entries) →
  let outputDir := outputDirOf env subfolder target in
  let o := downloadFolder env repoUrl subfolder target w in
  let proceed :=
    extractPhase env subfolder (prefixOf ref finalBranch) outputDir
      (tempDirOf env) entries w (fetchingLog env ref) in
  (stat outputDir w = inr StatsFile →
   o = refused env ref w (existsAsFile (chalk env) outputDir)) ∧
  (∀ files, stat outputDir w = inr StatsDirectory →
            readdir outputDir w = inr files → files ≠ [] →
            o = refused env ref w (notEmpty (chalk env) outputDir)) ∧
  (stat outputDir w = inr StatsDirectory → readdir outputDir w = inr [] →
   o = proceed) ∧
  (∀ err, stat outputDir w = inl err → code err = Some (js "ENOENT") →
          o = proceed) ∧
  (∀ err, stat outputDir w = inl err ∨
          (∃ stats, stat outputDir w = inr stats ∧ isFile stats = false ∧
                    readdir outputDir w = inl err) →
          code err ≠ Some (js "ENOENT") →
          o = refused env ref w (probeFailed err)) ∧
  (∀ w1 w2, ensureDir (tempDirOf env) w = (w1, None) →
            ensureDir outputDir w1 = (w2, None) →
            proceed
            = report env subfolder outputDir (tempDirOf env)
                (extractLoop (prefixOf ref finalBranch) outputDir
                   (normalizeSubfolder subfolder) entries
                   {| fs := w2; filesExtracted := 0;
                      matchedSomething := false;
                      spinner := fetchingLog env ref |})).
Proof.
  intros Harch outputDir o proceed. unfold o, proceed, outputDir.
  rewrite (downloadFolder_guard _ _ _ _ _ _ _ _ Harch).
  unfold targetGuard, probeError.
  repeat split.
  - by intros ->.
  - intros files -> -> Hfiles. simpl.
    rewrite bool_decide_eq_true_2; [done|].
    destruct files; [done|simpl; lia].
  - by intros -> ->.
  - intros err -> Hcode. by rewrite bool_decide_eq_false_2 by auto.
  - intros err [->|(stats & -> & -> & ->)] Hcode;
      by rewrite bool_decide_eq_true_2.
  - intros w1 w2 Htemp Hout. unfold extractPhase. by rewrite Htemp, Hout.
Qed.

Lemma targetGuard_outcomes_witness :
  spinnerLog (Demo.run Demo.archive "keep" Demo.asFile)
  = [Start (js "Preparing download...");
     Text (js "Fetching ZIP from branch");
     Fail (js "Target /work/output exists as a file. Please remove it or choose another name.")] ∧
  spinnerLog (Demo.run Demo.archive "keep" Demo.occupied)
  = [Start (js "Preparing download...");
     Text (js "Fetching ZIP from branch");
     Fail (js "Directory /work/output already exists and is not empty.")] ∧
  exitCode (Demo.run Demo.archive "keep" Demo.vacant) = None ∧
  exitCode (Demo.run Demo.archive "keep" Demo.emptyFs) = None ∧
  spinnerLog
    (downloadFolder (Demo.env Demo.archive) (js "owner/repo#branch")
       (js "keep") (Some (js "output")) Demo.Sealed)
  = [Start (js "Preparing download...");
     Text (js "Fetching ZIP from branch");
     Fail (js "Error checking target path: EACCES: permission denied")].
Proof.
  pose proof (λ w, targetGuard_outcomes (W := MemFs.memfs)
                (Demo.env Demo.archive) (js "owner/repo#branch")
                (js "keep") (Some (js "output")) w
                Demo.ownerRepo (js "branch") Demo.archive) as G.
  split; [|split; [|split; [|split]]].
  - destruct (G Demo.asFile) as (-> & _);
      [vm_compute; reflexivity..|]. vm_compute. reflexivity.
  - destruct (G Demo.occupied) as (_ & Hne & _);
      [vm_compute; reflexivity|].
    unfold Demo.run. rewrite (Hne [js "old.txt"]);
      [|vm_compute; reflexivity..|done]. vm_compute. reflexivity.
  - destruct (G Demo.vacant) as (_ & _ & Hempty & _);
      [vm_compute; reflexivity|].
    unfold Demo.run. rewrite Hempty by (vm_compute; reflexivity).
    vm_compute. reflexivity.
  - destruct (G Demo.emptyFs) as (_ & _ & _ & Hnone & _);
      [vm_compute; reflexivity|].
    unfold Demo.run.
    rewrite (Hnone (MemFs.fsError "ENOENT"
                      (js "no such file or directory, stat")
                      (js "/work/output")));
      [|vm_compute; reflexivity..]. vm_compute. reflexivity.
  - destruct (targetGuard_outcomes (W := Demo.sealed)
                (Demo.env Demo.archive) (js "owner/repo#branch")
                (js "keep") (Some (js "output")) Demo.Sealed
                Demo.ownerRepo (js "branch") Demo.archive)
      as (_ & _ & _ & _ & Hother & _); [vm_compute; reflexivity|].
    rewrite (Hother Demo.accessError); [vm_compute; reflexivity| |done].
    left. reflexivity.
Defined.

(** C6.  A run that finds the output directory existing and not empty
    fails, whatever the other stages do: the exit code is 1.  When the
    archive has arrived, the run ends at the guard, with the message
    that the directory is not empty and the file system exactly as it
    was: no directory is ensured, no file written, nothing removed.  A
    run that ends earlier calls the file system only to remove its own
    scratch directory; the file system is as it was whenever that path
    did not exist. *)
Theorem nonempty_target_untouched {W : Type} `{FsExtra W} env repoUrl
    subfolder target (w : W) files :
  let outputDir := outputDirOf env subfolder target in
  let o := downloadFolder env repoUrl subfolder target w in
  stat outputDir w = inr StatsDirectory →
  readdir outputDir w = inr files → files ≠ [] →
  exitCode o = Some 1 ∧
  (∀ ref finalBranch entries,
     archiveOf env repoUrl = Some (ref, finalBranch, entries) →
     o = {| finalFs := w; exitCode := Some 1;
            spinnerLog := fetchingLog env ref ++
                          [Fail (notEmpty (chalk env) outputDir)] |}) ∧
  ((remove (tempDirOf env) w).1 = w → finalFs o = w).
Proof.
  intros outputDir o Hstat Hread Hfiles.
  assert (targetGuard env outputDir w = Some (notEmpty (chalk env) outputDir))
    as Hguard.
  { unfold targetGuard. rewrite Hstat, Hread. simpl.
    rewrite bool_decide_eq_true_2; [done|].
    destruct files; [done|simpl; lia]. }
  destruct (downloadFolder_guard_failure env repoUrl subfolder target w _ Hguard)
    as [Hexit Hfs].
  split; [done|]. split.
  - intros ref finalBranch entries Harch. unfold o.
    rewrite (downloadFolder_guard _ _ _ _ _ _ _ _ Harch).
    fold outputDir. by rewrite Hguard.
  - intros Hfresh. destruct Hfs as [Hfs|Hfs]; [done|]. unfold o.
    by rewrite Hfs.
Qed.

Lemma nonempty_target_untouched_witness :
  Demo.run Demo.archive "keep" Demo.occupied
  = {| finalFs := Demo.occupied; exitCode := Some 1;
       spinnerLog :=
         [Start (js "Preparing download...");
          Text (js "Fetching ZIP from branch");
          Fail (js "Directory /work/output already exists and is not empty.")] |}
  ∧ finalFs (downloadFolder Demo.offline (js "owner/repo#branch")
               (js "keep") (Some (js "output")) Demo.occupied)
    = Demo.occupied.
Proof.
  split.
  - destruct (nonempty_target_untouched (Demo.env Demo.archive)
                (js "owner/repo#branch") (js "keep") (Some (js "output"))
                Demo.occupied [js "old.txt"])
      as (_ & Hguard & _); [vm_compute; reflexivity..|done|].
    unfold Demo.run.
    rewrite (Hguard Demo.ownerRepo (js "branch") Demo.archive)
      by (vm_compute; reflexivity).
    vm_compute. reflexivity.
  - destruct (nonempty_target_untouched Demo.offline
                (js "owner/repo#branch") (js "keep") (Some (js "output"))
                Demo.occupied [js "old.txt"])
      as (_ & _ & Hfresh); [vm_compute; reflexivity..|done|].
    apply Hfresh. vm_compute. reflexivity.
Defined.

(** C9.  When the archive has arrived, the target has been accepted and
    created, at least one entry is in scope and every entry in scope is
    a directory, the run succeeds: the exit code is not set, and the
    spinner ends with the success message for 0 files, preceded by
    nothing but the warnings of directories that could not be
    created. *)
Theorem directories_alone_succeed {W : Type} `{FsExtra W} env repoUrl
    subfolder target (w w1 w2 : W) ref finalBranch entries :
  let prefix := prefixOf ref finalBranch in
  let nsub := normalizeSubfolder subfolder in
  let outputDir := outputDirOf env subfolder target in
  let o := downloadFolder env repoUrl subfolder target w in
  archiveOf env repoUrl = Some (ref, finalBranch, entries) →
  targetGuard env outputDir w = None →
  ensureDir (tempDirOf env) w = (w1, None) →
  ensureDir outputDir w1 = (w2, None) →
  existsb (inScope prefix nsub) entries = true →
  directoriesOnly prefix nsub entries = true →
  exitCode o = None ∧
  ∃ warns,
    forallb isWarn warns = true ∧
    spinnerLog o
    = fetchingLog env ref ++ warns ++
      [Succeed (downloaded (chalk env) subfolder outputDir 0)].
Proof.
  intros prefix nsub outputDir o Harch Hguard Htemp Hout Hsome Hdirs.
  unfold o. rewrite (downloadFolder_guard _ _ _ _ _ _ _ _ Harch).
  fold outputDir. rewrite Hguard. unfold extractPhase.
  rewrite Htemp, Hout. fold prefix nsub. unfold report.
  rewrite extractLoop_matched, Hsome. simpl.
  destruct (extractLoop_directories prefix outputDir nsub entries
              {| fs := w2; filesExtracted := 0; matchedSomething := false;
                 spinner := fetchingLog env ref |})
    as (Hcount & warns & Hlog & Hwarns).
  { apply Forall_forall. intros e He Hin.
    unfold directoriesOnly in Hdirs. rewrite forallb_forall in Hdirs.
    specialize (Hdirs e). rewrite Hin in Hdirs.
    destruct (type e); [done|].
    apply list_elem_of_In in He. by specialize (Hdirs He). }
  cbn [filesExtracted spinner] in Hcount, Hlog. split; [done|].
  exists warns. split; [done|]. by rewrite Hlog, Hcount, <- app_assoc.
Qed.

Lemma directories_alone_succeed_witness :
  let o := Demo.run Demo.dirsOnly "keep" Demo.emptyFs in
  exitCode o = None ∧
  spinnerLog o
  = [Start (js "Preparing download...");
     Text (js "Fetching ZIP from branch");
     Succeed (js "Successfully downloaded keep to /work/output (0 files)")].
Proof.
  intros o.
  destruct (directories_alone_succeed (Demo.env Demo.dirsOnly)
              (js "owner/repo#branch") (js "keep") (Some (js "output"))
              Demo.emptyFs
              (ensureDir (js "/tmp/gh-folder-42") Demo.emptyFs).1
              (ensureDir (js "/work/output")
                 (ensureDir (js "/tmp/gh-folder-42") Demo.emptyFs).1).1
              Demo.ownerRepo (js "branch") Demo.dirsOnly)
    as (Hexit & warns & _ & _); [vm_compute; reflexivity..|].
  split; [exact Hexit|]. vm_compute. reflexivity.
Defined.


(** ** More about the parser *)

Section ParserInversion.
Implicit Types (r : regex) (m : matchArray)
  (k : nat → jsstring → matchArray → option matchArray).

(** A successful search has found its match at some split of the
    input. *)
Lemma search_Some_inv n r i s j m :
  search n r i s = Some (j, m) →
  ∃ a b, s = a ++ b ∧ j = i + length a ∧ matchAt n r j b = Some m.
Proof.
  revert i. induction s as [|c s IH]; intros i; simpl.
  - destruct (matchAt n r i []) eqn:E; [|done].
    intros [= <- <-]. exists [], []. by rewrite Nat.add_0_r.
  - destruct (matchAt n r i (c :: s)) eqn:E.
    + intros [= <- <-]. exists [], (c :: s). by rewrite Nat.add_0_r.
    + intros (a & b & -> & -> & Hm)%IH. exists (c :: a), b.
      simpl. split; [done|]. split; [lia|done].
Qed.

(** The inversion of a captured repetition, with the capture it
    records. *)
Lemma rmatch_group_capture n greedy cls r i s m k x :
  rmatch (Group n (Plus greedy cls) @@ r) i s m k = Some x →
  ∃ run rest, s = run ++ rest ∧ nonEmptyAll cls run = true ∧
              rmatch r (i + length run) rest (<[n := Some run]> m) k = Some x.
Proof.
  simpl. intros (run & rest & -> & Hrun & Hk)%plus_Some_inv.
  exists run, rest. by rewrite take_consumed in Hk.
Qed.

(** The fragment tail, inverted. *)
Lemma rmatch_fragment_inv i s m k x :
  rmatch (Opt (Chars (js "#") @@ Group 3 (Plus true dot)) @@ Eol) i s m k
    = Some x →
  ∃ B, optAll dot B = true ∧ s = fragment B ∧
       k (i + length s) []
         (match B with Some b => <[3 := Some b]> m | None => m end) = Some x.
Proof.
  intros [H|H]%rmatch_opt_inv.
  - rewrite rmatch_seq_assoc in H.
    apply rmatch_chars_inv in H as (s1 & -> & H).
    apply rmatch_group_capture in H as (b & rest & -> & Hb & H).
    destruct rest as [|c rest]; [|done]. rewrite rmatch_eol in H.
    exists (Some b). split; [done|]. split; [by rewrite app_nil_r|].
    rewrite <- H. f_equal. rewrite !length_app. simpl. lia.
  - destruct s as [|c s]; [|done]. exists None.
    split; [done|]. split; [done|]. rewrite <- H. simpl. f_equal. lia.
Qed.

(** The shorthand pattern matches the shorthand forms and nothing
    else. *)
Lemma shorthandRegex_inv input m :
  regexMatch 3 shorthandRegex input = Some m →
  ∃ O R B,
    nonEmptyAll wordDotDash O = true ∧ nonEmptyAll wordDotDash R = true ∧
    optAll dot B = true ∧ input = shorthand O R B ∧
    m = [Some input; Some O; Some R; B].
Proof.
  intros Hm. pose proof Hm as Hm'. revert Hm'.
  unfold shorthandRegex. rewrite regexMatch_bol. unfold matchAt.
  rewrite rmatch_bol.
  intros (O & s1 & -> & HO & H)%rmatch_group_capture.
  apply rmatch_chars_inv in H as (s2 & -> & H).
  apply rmatch_group_capture in H as (R & s3 & -> & HR & H).
  apply rmatch_fragment_inv in H as (B & HB & -> & _).
  exists O, R, B. repeat split; try done.
  fold (shorthand O R B) in Hm.
  rewrite shorthandRegex_match in Hm by done. by injection Hm as <-.
Qed.

(** What a match of the generic pattern looks like. *)
Lemma fullRepoRegex_inv input m :
  regexMatch 3 fullRepoRegex input = Some m →
  ∃ pre O R git B,
    nonEmptyAll dot O = true ∧ nonEmptyAll dot R = true ∧
    optAll dot B = true ∧
    input = pre ++ genericRef O R git B ∧
    group m 1 = Some O ∧ group m 2 = Some R ∧ group m 3 = B.
Proof.
  unfold regexMatch.
  destruct (search 3 fullRepoRegex 0 input) as [[j m']|] eqn:E; [|done].
  intros [= <-].
  apply search_Some_inv in E as (pre & s & -> & -> & H).
  revert H. unfold matchAt, fullRepoRegex.
  intros (s1 & -> & H)%rmatch_chars_inv.
  apply rmatch_group_capture in H as (O & s2 & -> & HO & H).
  apply rmatch_chars_inv in H as (s3 & -> & H).
  apply rmatch_group_capture in H as (R & s4 & -> & HR & H).
  assert (∃ git B, optAll dot B = true ∧ s4 = gitSuffix git ++ fragment B ∧
            group m' 1 = Some O ∧ group m' 2 = Some R ∧ group m' 3 = B)
    as (git & B & HB & -> & G1 & G2 & G3).
  { apply rmatch_opt_inv in H as [H|H].
    - apply rmatch_chars_inv in H as (s5 & -> & H).
      apply rmatch_fragment_inv in H as (B & HB & -> & H).
      exists true, B. split; [done|]. split; [done|].
      injection H as <-. by destruct B.
    - apply rmatch_fragment_inv in H as (B & HB & -> & H).
      exists false, B. split; [done|]. split; [done|].
      injection H as <-. by destruct B. }
  by exists pre, O, R, git, B.
Qed.
End ParserInversion.

(** X1.  A string without a slash is no reference: each of the three
    patterns asks for one. *)
Theorem parseGitHubUrl_requires_slash input :
  forallb notSlash input = true →
  parseGitHubUrl input = Throw invalidFormat.
Proof.
  intros Hns. unfold parseGitHubUrl.
  destruct (regexMatch 4 treeUrlRegex input) as [m|] eqn:Et.
  { apply treeUrlRegex_inv in Et as (O & R & B & S & _ & _ & _ & _ & ->).
    unfold treeUrl in Hns. by rewrite forallb_app in Hns. }
  destruct (regexMatch 3 shorthandRegex input) as [m|] eqn:Es.
  { apply shorthandRegex_inv in Es as (O & R & B & _ & _ & _ & -> & _).
    unfold shorthand in Hns. rewrite !forallb_app in Hns.
    by rewrite andb_false_r in Hns. }
  destruct (regexMatch 3 fullRepoRegex input) as [m|] eqn:Eg; [|done].
  apply fullRepoRegex_inv
    in Eg as (pre & O & R & git & B & _ & _ & _ & -> & _).
  unfold genericRef in Hns. rewrite !forallb_app in Hns.
  by rewrite andb_false_r in Hns.
Qed.

Lemma parseGitHubUrl_requires_slash_witness :
  parseGitHubUrl (js "saas-lite") = Throw invalidFormat.
Proof. apply parseGitHubUrl_requires_slash. reflexivity. Defined.

Lemma parsed_fields_nonempty input ref :
  parseGitHubUrl input = Return ref →
  owner ref ≠ [] ∧ repo ref ≠ [] ∧ branch ref ≠ Some [] ∧
  subfolder ref ≠ Some [].
Proof.
  assert (∀ cls s, nonEmptyAll cls s = true → s ≠ []) as Hne
    by (by intros cls [|c s]).
  assert (∀ cls B, optAll cls B = true → B ≠ Some []) as Hopt
    by (by intros cls [[|c s]|]).
  unfold parseGitHubUrl.
  destruct (regexMatch 4 treeUrlRegex input) as [m|] eqn:Et.
  { destruct (treeUrlRegex_inv _ _ Et)
      as (O & R & B & S & HO & HR & HB & HS & ->).
    rewrite treeUrlRegex_match in Et by done. injection Et as <-.
    intros [= <-]. cbn.
    split; [exact (Hne _ _ HO)|]. split; [exact (Hne _ _ HR)|].
    split; intros [= ->]; done. }
  destruct (regexMatch 3 shorthandRegex input) as [m|] eqn:Es.
  { apply shorthandRegex_inv in Es as (O & R & B & HO & HR & HB & -> & ->).
    intros [= <-]. cbn.
    split; [exact (Hne _ _ HO)|]. split; [exact (Hne _ _ HR)|].
    split; [exact (Hopt _ _ HB)|done]. }
  destruct (regexMatch 3 fullRepoRegex input) as [m|] eqn:Eg; [|done].
  apply fullRepoRegex_inv
    in Eg as (pre & O & R & git & B & HO & HR & HB & -> & G1 & G2 & G3).
  intros [= <-]. unfold groupStr. rewrite G1, G2, G3. cbn.
  split; [exact (Hne _ _ HO)|]. split; [exact (Hne _ _ HR)|].
  split; [exact (Hopt _ _ HB)|done].
Qed.

(** X2.  Whatever the pattern that matched, the owner and the repository of
    a parsed reference are not empty, and neither is its branch or its
    subfolder when it has one. *)
Theorem parseGitHubUrl_fields_nonempty input ref :
  parseGitHubUrl input = Return ref →
  owner ref ≠ [] ∧ repo ref ≠ [] ∧ branch ref ≠ Some [] ∧
  subfolder ref ≠ Some [].
Proof. exact (parsed_fields_nonempty input ref). Qed.

Lemma parseGitHubUrl_fields_nonempty_witness :
  owner Demo.ownerRepo ≠ [] ∧ repo Demo.ownerRepo ≠ [] ∧
  branch Demo.ownerRepo ≠ Some [] ∧ subfolder Demo.ownerRepo ≠ Some [].
Proof.
  apply (parseGitHubUrl_fields_nonempty (js "owner/repo#branch")).
  vm_compute. reflexivity.
Defined.

Lemma shorthand_language input :
  is_Some (regexMatch 3 shorthandRegex input) ↔
  ∃ O R B,
    nonEmptyAll wordDotDash O = true ∧ nonEmptyAll wordDotDash R = true ∧
    optAll dot B = true ∧ input = shorthand O R B ∧
    parseGitHubUrl input
    = Return {| owner := O; repo := R; branch := B; subfolder := None |}.
Proof.
  split.
  - intros [m Hm].
    apply shorthandRegex_inv in Hm as (O & R & B & HO & HR & HB & -> & _).
    exists O, R, B. repeat split; try done. by apply parse_shorthand.
  - intros (O & R & B & HO & HR & HB & -> & _).
    rewrite shorthandRegex_match by done. by eexists.
Qed.

(** X3.  The shorthand pattern accepts exactly the strings [O/R] and [O/R#B]
    with [O] and [R] non-empty words of letters, digits, underscores, dots
    and dashes and [B] non-empty and free of line terminators; such a string
    is parsed into owner [O], repo [R] and branch [B]. *)
Theorem shorthand_exact input :
  is_Some (regexMatch 3 shorthandRegex input) ↔
  ∃ O R B,
    nonEmptyAll wordDotDash O = true ∧ nonEmptyAll wordDotDash R = true ∧
    optAll dot B = true ∧ input = shorthand O R B ∧
    parseGitHubUrl input
    = Return {| owner := O; repo := R; branch := B; subfolder := None |}.
Proof. exact (shorthand_language input). Qed.

Lemma shorthand_exact_witness :
  ∃ O R B,
    nonEmptyAll wordDotDash O = true ∧ nonEmptyAll wordDotDash R = true ∧
    optAll dot B = true ∧ js "metallicjs/templates#dev" = shorthand O R B ∧
    parseGitHubUrl (js "metallicjs/templates#dev")
    = Return {| owner := O; repo := R; branch := B; subfolder := None |}.
Proof.
  apply (proj1 (shorthand_exact (js "metallicjs/templates#dev"))).
  vm_compute. by eexists.
Defined.

(** ** More about the extraction loop *)

Section LoopExtras.
Context {W : Type} `{FsExtra W}.
Variables (prefix outputDir nsub : jsstring).
Implicit Types (st : LoopState W) (entries : list Entry).

Lemma textsOf_app (l1 l2 : list SpinnerEvent) :
  textsOf (l1 ++ l2) = textsOf l1 ++ textsOf l2.
Proof. apply List.filter_app. Qed.

(** One iteration appends at most one progress text, numbered by the
    counter it has just incremented, and nothing but texts and
    warnings. *)
Lemma processEntry_spinner st entry :
  let st' := processEntry prefix outputDir nsub st entry in
  ∃ added,
    spinner st' = spinner st ++ added ∧ forallb isInterim added = true ∧
    textsOf added
    = if isWritten (resultOf prefix outputDir nsub st entry)
      then [Text (extractedSoFar (S (filesExtracted st)))] else [].
Proof.
  unfold processEntry, resultOf, extractEntry.
  destruct (inScope prefix nsub entry).
  2:{ exists []. by rewrite app_nil_r. }
  destruct (type entry).
  - destruct (ensureDir _ _) as [w [err|]]; cbn.
    + by eexists [_].
    + exists []. by rewrite app_nil_r.
  - destruct (ensureDir _ _) as [w [err|]]; cbn; [by eexists [_]|].
    destruct (writeStream _ _ _) as [w' [err|]]; cbn; by eexists [_].
Qed.

Lemma extractLoop_spinner entries st :
  ∃ added,
    spinner (extractLoop prefix outputDir nsub entries st)
    = spinner st ++ added ∧ forallb isInterim added = true.
Proof.
  revert st. induction entries as [|e es IH]; intros st.
  - exists []. by rewrite app_nil_r.
  - rewrite extractLoop_cons.
    destruct (processEntry_spinner st e) as (a1 & H1 & Hi1 & _).
    destruct (IH (processEntry prefix outputDir nsub st e)) as (a2 & H2 & Hi2).
    exists (a1 ++ a2). rewrite H2, H1, <- app_assoc, forallb_app.
    by rewrite Hi1, Hi2.
Qed.

(** X4.  Entries out of scope could as well be absent from the archive: the
    loop ends in the same state, file system included, on the archive and on
    its in-scope entries alone. *)
Theorem extractLoop_ignores_out_of_scope entries st :
  extractLoop prefix outputDir nsub entries st
  = extractLoop prefix outputDir nsub
      (List.filter (inScope prefix nsub) entries) st.
Proof.
  revert st. induction entries as [|e es IH]; intros st; [done|].
  rewrite extractLoop_cons. simpl.
  destruct (inScope prefix nsub e) eqn:Hin.
  - by rewrite extractLoop_cons, IH.
  - by rewrite processEntry_out, IH.
Qed.

End LoopExtras.

(** ** More about a run *)

Section RunExtras.
Context {W : Type} `{FsExtra W}.
Implicit Types (env : Env) (w : W) (ref : RepoRef).

(** X6.  A run succeeds exactly when the archive arrives, the target is
    accepted, both directories can be ensured and some entry of the archive
    is in scope. Whether any entry could be written plays no part. A run
    that succeeds ends with the file system the loop has left: the scratch
    directory it has created is not removed. *)
Theorem success_iff_matched env repoUrl subfolder target w :
  let o := downloadFolder env repoUrl subfolder target w in
  let outputDir := outputDirOf env subfolder target in
  (exitCode o = None ↔
   ∃ ref finalBranch entries w1 w2,
     archiveOf env repoUrl = Some (ref, finalBranch, entries) ∧
     targetGuard env outputDir w = None ∧
     ensureDir (tempDirOf env) w = (w1, None) ∧
     ensureDir outputDir w1 = (w2, None) ∧
     existsb (inScope (prefixOf ref finalBranch) (normalizeSubfolder subfolder))
       entries = true) ∧
  (∀ ref finalBranch entries w1 w2,
     archiveOf env repoUrl = Some (ref, finalBranch, entries) →
     targetGuard env outputDir w = None →
     ensureDir (tempDirOf env) w = (w1, None) →
     ensureDir outputDir w1 = (w2, None) →
     existsb (inScope (prefixOf ref finalBranch) (normalizeSubfolder subfolder))
       entries = true →
     let final := extractLoop (prefixOf ref finalBranch) outputDir
                    (normalizeSubfolder subfolder) entries
                    {| fs := w2; filesExtracted := 0;
                       matchedSomething := false;
                       spinner := fetchingLog env ref |} in
     finalFs o = fs final ∧
     last (spinnerLog o)
     = Some (Succeed (downloaded (chalk env) subfolder outputDir
                        (filesExtracted final)))).
Proof.
  intros o outputDir.
  assert (∀ ref finalBranch entries w1 w2,
     archiveOf env repoUrl = Some (ref, finalBranch, entries) →
     targetGuard env outputDir w = None →
     ensureDir (tempDirOf env) w = (w1, None) →
     ensureDir outputDir w1 = (w2, None) →
     o = report env subfolder outputDir (tempDirOf env)
           (extractLoop (prefixOf ref finalBranch) outputDir
              (normalizeSubfolder subfolder) entries
              {| fs := w2; filesExtracted := 0; matchedSomething := false;
                 spinner := fetchingLog env ref |})) as Hreport.
  { intros ref fb entries w1 w2 Harch Hguard Htemp Hout. unfold o.
    rewrite (downloadFolder_guard _ _ _ _ _ _ _ _ Harch).
    fold outputDir. rewrite Hguard. unfold extractPhase.
    by rewrite Htemp, Hout. }
  split; [split|].
  - intros Hexit.
    destruct (archiveOf env repoUrl) as [[[ref fb] entries]|] eqn:Harch.
    2:{ exfalso. revert Hexit Harch. unfold o, archiveOf, downloadFolder.
        destruct (parseGitHubUrl repoUrl) as [ref|]; [|done].
        destruct (resolveBranch env ref) as [fb|]; [|done].
        destruct (fetch env _) as [res|]; [|done].
        destruct (ok res); [|done]. cbn.
        by destruct (body res). }
    destruct (targetGuard env outputDir w) as [msg|] eqn:Hguard.
    { exfalso. revert Hexit. unfold o.
      rewrite (downloadFolder_guard _ _ _ _ _ _ _ _ Harch).
      fold outputDir. by rewrite Hguard. }
    destruct (ensureDir (tempDirOf env) w) as [w1 [e1|]] eqn:Htemp.
    { exfalso. revert Hexit. unfold o.
      rewrite (downloadFolder_guard _ _ _ _ _ _ _ _ Harch).
      fold outputDir. rewrite Hguard. unfold extractPhase.
      by rewrite Htemp. }
    destruct (ensureDir outputDir w1) as [w2 [e2|]] eqn:Hout.
    { exfalso. revert Hexit. unfold o.
      rewrite (downloadFolder_guard _ _ _ _ _ _ _ _ Harch).
      fold outputDir. rewrite Hguard. unfold extractPhase.
      by rewrite Htemp, Hout. }
    exists ref, fb, entries, w1, w2. repeat split; try done.
    revert Hexit. rewrite (Hreport _ _ _ _ _ eq_refl eq_refl eq_refl Hout).
    unfold report. rewrite extractLoop_matched. cbn.
    by destruct (existsb _ _).
  - intros (ref & fb & entries & w1 & w2 & Harch & Hguard & Htemp & Hout & Hin).
    rewrite (Hreport _ _ _ _ _ Harch Hguard Htemp Hout).
    unfold report. rewrite extractLoop_matched, Hin. done.
  - intros ref fb entries w1 w2 Harch Hguard Htemp Hout Hin final.
    rewrite (Hreport _ _ _ _ _ Harch Hguard Htemp Hout).
    unfold report. rewrite extractLoop_matched, Hin. cbn.
    split; [done|]. by rewrite last_snoc.
Qed.

(** X7.  Every run tells the spinner one verdict, at the very end: a failure
    when the exit code is set to 1, a success when it is left unset. Before
    it come the start and nothing but progress texts and warnings. *)
Theorem run_ends_with_one_verdict env repoUrl subfolder target w :
  let o := downloadFolder env repoUrl subfolder target w in
  ∃ middle verdict,
    spinnerLog o
    = Start (js "Preparing download...") :: middle ++ [verdict] ∧
    forallb isInterim middle = true ∧
    ((∃ msg, verdict = Fail msg ∧ exitCode o = Some 1) ∨
     (∃ msg, verdict = Succeed msg ∧ exitCode o = None)).
Proof.
  intros o. unfold o, downloadFolder, fatal.
  destruct (parseGitHubUrl repoUrl) as [ref|m].
  2:{ exists [], (Fail m). cbn. eauto 10. }
  destruct (resolveBranch env ref) as [fb|m].
  2:{ exists [], (Fail m). cbn. eauto 10. }
  unfold fetchingLog.
  destruct (fetch env _) as [res|m].
  2:{ eexists [_], (Fail m). cbn. eauto 10. }
  destruct (ok res); cbn [negb].
  2:{ eexists [_], (Fail _). cbn. eauto 10. }
  destruct (body res) as [entries|].
  2:{ eexists [_], (Fail _). cbn. eauto 10. }
  destruct (targetGuard env _ w) as [msg|].
  { eexists [_], (Fail msg). cbn. eauto 10. }
  unfold extractPhase, fatal.
  destruct (ensureDir (tempDirOf env) w) as [w1 [e1|]].
  { eexists [_], (Fail _). cbn. eauto 10. }
  destruct (ensureDir _ w1) as [w2 [e2|]].
  { eexists [_], (Fail _). cbn. eauto 10. }
  destruct (extractLoop_spinner (prefixOf ref fb)
              (outputDirOf env subfolder target)
              (normalizeSubfolder subfolder) entries
              {| fs := w2; filesExtracted := 0; matchedSomething := false;
                 spinner := [Start (js "Preparing download...");
                             Text (js "Fetching ZIP from " ++
                                   cyan (chalk env)
                                     (orElseStr (branch ref)
                                        (js "default branch")))] |})
    as (added & Hsp & Hint).
  cbn [spinner] in Hsp. unfold report. rewrite Hsp.
  destruct (matchedSomething _); cbn [negb spinnerLog exitCode].
  - eexists (_ :: added), (Succeed _). split; [done|]. split; [done|].
    right. eauto.
  - eexists (_ :: added), (Fail _). split; [done|]. split; [done|].
    left. eauto.
Qed.

(** X8.  One slash at the end of the subfolder makes no difference to what a
    run does: the exit code and the file system it leaves are those of the
    run for the subfolder without it. *)
Theorem trailing_slash_immaterial env repoUrl (s : jsstring) target w :
  last s ≠ Some 47%N →
  let o1 := downloadFolder env repoUrl (s ++ js "/") target w in
  let o2 := downloadFolder env repoUrl s target w in
  exitCode o1 = exitCode o2 ∧ finalFs o1 = finalFs o2.
Proof.
  intros Hlast.
  assert (normalizeSubfolder (s ++ js "/") = normalizeSubfolder s) as Hn
    by (by rewrite normalizeSubfolder_slash, normalizeSubfolder_id).
  assert (outputDirOf env (s ++ js "/") target = outputDirOf env s target)
    as Hout by (unfold outputDirOf; by rewrite Hn).
  cbn zeta. unfold downloadFolder.
  destruct (parseGitHubUrl repoUrl) as [ref|m]; [|done].
  destruct (resolveBranch env ref) as [fb|m]; [|done].
  destruct (fetch env _) as [res|m]; [|done].
  destruct (negb (ok res)); [done|].
  destruct (body res) as [entries|]; [|done].
  rewrite Hout. destruct (targetGuard env _ w); [done|].
  unfold extractPhase.
  destruct (ensureDir (tempDirOf env) w) as [w1 [e1|]]; [done|].
  destruct (ensureDir _ w1) as [w2 [e2|]]; [done|].
  rewrite Hn. unfold report. by destruct (matchedSomething _).
Qed.

(** X9.  The branch of a reference comes from the repository metadata only
    when the reference names none. A failed metadata request ends the run at
    once, with the message of the rejection or the status text of the
    response, the exit code 1 and the file system as it was; the archive is
    not asked for. *)
Theorem metadata_failure_is_fatal env repoUrl subfolder target w ref :
  parseGitHubUrl repoUrl = Return ref →
  branch ref = None →
  let url := js "https://api.github.com/repos/" ++ owner ref ++ js "/"
             ++ repo ref in
  let failed msg :=
    {| finalFs := w; exitCode := Some 1;
       spinnerLog := [Start (js "Preparing download..."); Fail msg] |} in
  (∀ msg, fetch env url = Throw msg →
          downloadFolder env repoUrl subfolder target w = failed msg) ∧
  (∀ res, fetch env url = Return res → ok res = false →
          downloadFolder env repoUrl subfolder target w
          = failed (js "Failed to fetch repo metadata: " ++ statusText res)).
Proof.
  intros Hparse Hbranch url failed.
  unfold downloadFolder, resolveBranch, getDefaultBranch.
  rewrite Hparse, Hbranch. fold url. split.
  - by intros msg ->.
  - by intros res -> ->.
Qed.

(** X10.  A reference that names its branch is resolved without the metadata
    endpoint: the run depends on the network through the archive request
    alone. *)
Theorem explicit_branch_needs_no_metadata env env' repoUrl subfolder target
    w ref b :
  parseGitHubUrl repoUrl = Return ref → branch ref = Some b →
  cwd env = cwd env' → tmpdir env = tmpdir env' → now env = now env' →
  chalk env = chalk env' →
  fetch env (zipUrlOf ref b) = fetch env' (zipUrlOf ref b) →
  downloadFolder env repoUrl subfolder target w
  = downloadFolder env' repoUrl subfolder target w.
Proof.
  intros Hparse Hbranch Hcwd Htmp Hnow Hchalk Hfetch.
  destruct (parsed_fields_nonempty _ _ Hparse) as (_ & _ & Hb & _).
  assert (∀ e, resolveBranch e ref = Return b) as Hres.
  { intros e. unfold resolveBranch. rewrite Hbranch.
    destruct b; [by rewrite Hbranch in Hb|done]. }
  unfold downloadFolder. rewrite Hparse, !Hres, Hfetch.
  unfold tempDirOf, fetchingLog, outputDirOf, targetGuard, extractPhase,
    report.
  by rewrite Hcwd, Htmp, Hnow, Hchalk.
Qed.
End RunExtras.

Lemma trailing_slash_immaterial_witness :
  let o1 := Demo.run Demo.archive "keep/" Demo.emptyFs in
  let o2 := Demo.run Demo.archive "keep" Demo.emptyFs in
  exitCode o1 = exitCode o2 ∧ finalFs o1 = finalFs o2.
Proof.
  apply (trailing_slash_immaterial (Demo.env Demo.archive)
           (js "owner/repo#branch") (js "keep") (Some (js "output"))
           Demo.emptyFs).
  by vm_compute.
Defined.

Lemma success_iff_matched_witness :
  exitCode (Demo.run Demo.threeFiles "keep" Demo.guarded) = None.
Proof.
  apply (proj1 (success_iff_matched (Demo.env Demo.threeFiles)
                  (js "owner/repo#branch") (js "keep") (Some (js "output"))
                  Demo.guarded)).
  exists Demo.ownerRepo, (js "branch"), Demo.threeFiles,
    (ensureDir (js "/tmp/gh-folder-42") Demo.guarded).1,
    (ensureDir (js "/work/output")
       (ensureDir (js "/tmp/gh-folder-42") Demo.guarded).1).1.
  repeat split; vm_compute; reflexivity.
Defined.

Lemma metadata_failure_is_fatal_witness :
  downloadFolder Cases.notFound404 (js "owner/repo") (js "keep") None
    Demo.occupied
  = {| finalFs := Demo.occupied; exitCode := Some 1;
       spinnerLog := [Start (js "Preparing download...");
                      Fail (js "Failed to fetch repo metadata: Not Found")] |}.
Proof.
  destruct (metadata_failure_is_fatal Cases.notFound404 (js "owner/repo")
              (js "keep") None Demo.occupied
              {| owner := js "owner"; repo := js "repo"; branch := None;
                 subfolder := None |}) as [_ Hnotok];
    [vm_compute; reflexivity..|].
  rewrite (Hnotok {| ok := false; statusText := js "Not Found";
                     default_branch := []; body := None |});
    [|vm_compute; reflexivity..].
  vm_compute. reflexivity.
Defined.

Lemma explicit_branch_needs_no_metadata_witness :
  downloadFolder (Demo.env Demo.archive) (js "owner/repo#branch") (js "keep")
    (Some (js "output")) Demo.emptyFs
  = downloadFolder (Cases.noMetadata Demo.archive) (js "owner/repo#branch")
      (js "keep") (Some (js "output")) Demo.emptyFs.
Proof.
  apply (explicit_branch_needs_no_metadata (Demo.env Demo.archive)
           (Cases.noMetadata Demo.archive) (js "owner/repo#branch")
           (js "keep") (Some (js "output")) Demo.emptyFs
           Demo.ownerRepo (js "branch")); vm_compute; reflexivity.
Defined.

(** ** [main] and the reference it hands over *)

Section MainFacts.
Implicit Types (p : N → bool) (a b x y s : jsstring).

Lemma forallb_impl p q s :
  (∀ c, p c = true → q c = true) → forallb p s = true → forallb q s = true.
Proof.
  intros Hpq. induction s as [|c s IH]; simpl; [done|].
  intros [Hc Hs]%andb_true_iff. by rewrite (Hpq c Hc), IH.
Qed.

Lemma nonEmptyAll_impl p q s :
  (∀ c, p c = true → q c = true) →
  nonEmptyAll p s = true → nonEmptyAll q s = true.
Proof. destruct s as [|c s]; [done|]. apply forallb_impl. Qed.

Lemma nonEmptyAll_forallb p s : nonEmptyAll p s = true → forallb p s = true.
Proof. by destruct s. Qed.

Lemma wordDotDash_dot c : wordDotDash c = true → dot c = true.
Proof.
  unfold wordDotDash, wordChar, dot, isLineTerminator. intros Hc.
  destruct (N.eqb_spec c 10) as [->|]; [done|].
  destruct (N.eqb_spec c 13) as [->|]; [done|].
  destruct (N.eqb_spec c 8232) as [->|]; [done|].
  by destruct (N.eqb_spec c 8233) as [->|].
Qed.

Lemma wordDotDash_notSlash c : wordDotDash c = true → notSlash c = true.
Proof.
  unfold notSlash. intros Hc. by destruct (N.eqb_spec c 47) as [->|].
Qed.

Lemma wordDotDash_notHash c : wordDotDash c = true → notHash c = true.
Proof.
  unfold notHash. intros Hc. by destruct (N.eqb_spec c 35) as [->|].
Qed.

(** The first code unit outside a class splits a string in one way
    only. *)
Lemma span_unique p a c x b d y :
  forallb p a = true → p c = false → forallb p b = true → p d = false →
  a ++ c :: x = b ++ d :: y → a = b ∧ c = d ∧ x = y.
Proof.
  revert b. induction a as [|a0 a IH]; intros [|b0 b]; simpl;
    intros Ha Hc Hb Hd E.
  - by injection E as -> ->.
  - injection E as -> _. apply andb_true_iff in Hb as [Hb _]. congruence.
  - injection E as -> _. apply andb_true_iff in Ha as [Ha _]. congruence.
  - injection E as -> E. apply andb_true_iff in Ha as [_ Ha].
    apply andb_true_iff in Hb as [_ Hb].
    destruct (IH b Ha Hc Hb Hd E) as (-> & -> & ->). done.
Qed.

Lemma span_end p a c x b :
  forallb p a = true → p c = false → forallb p b = true →
  a ++ c :: x ≠ b.
Proof.
  intros Ha Hc Hb <-. rewrite forallb_app in Hb. simpl in Hb.
  by rewrite Hc, andb_false_r in Hb.
Qed.

Lemma indexOf_unfold pat s :
  indexOf pat s
  = if startsWith pat s then Some 0
    else match s with [] => None | _ :: s' => S <$> indexOf pat s' end.
Proof. by destruct s. Qed.

End MainFacts.

(** What [main] returns, case by case. *)
Lemma main_cases args :
  match main args with
  | PrintVersion => js "--version" ∈ args
  | PrintHelp => (js "--version" ∉ args) ∧ ((js "--help" ∈ args) ∨ args = [])
  | SubfolderRequired =>
      (js "--version" ∉ args) ∧ (js "--help" ∉ args) ∧
      ∃ repoInput rest parsed,
        args = repoInput :: rest ∧
        parseGitHubUrl repoInput = Return parsed ∧
        subfolder parsed = None ∧ truthy (rest !! 0) = false
  | ReportError _ | Download _ _ _ =>
      (js "--version" ∉ args) ∧ (js "--help" ∉ args) ∧ args ≠ []
  end.
Proof.
  unfold main, includes.
  destruct (decide (js "--version" ∈ args)) as [Hv|Hv];
    [by rewrite bool_decide_eq_true_2|].
  rewrite bool_decide_eq_false_2 by done.
  destruct (decide (js "--help" ∈ args)) as [Hh|Hh];
    [rewrite bool_decide_eq_true_2 by done; cbn; by auto|].
  rewrite bool_decide_eq_false_2 by done. cbn [orb].
  destruct args as [|repoInput rest].
  { rewrite bool_decide_eq_true_2 by done. split; [done|by right]. }
  rewrite bool_decide_eq_false_2 by done.
  destruct (parseGitHubUrl repoInput) as [parsed|m] eqn:Hparse; [|done].
  destruct (parsed_fields_nonempty _ _ Hparse) as (_ & _ & _ & Hsub).
  destruct (subfolder parsed) as [[|c s]|] eqn:Es; [done|by cbn|].
  cbn [truthy negb andb].
  destruct (bool_decide (length (repoInput :: rest) < 2)) eqn:Hlen.
  - apply bool_decide_eq_true in Hlen. destruct rest; [|simpl in Hlen; lia].
    split; [done|]. split; [done|]. by exists repoInput, [], parsed.
  - change ((repoInput :: rest) !! 1) with (rest !! 0).
    destruct (truthy (rest !! 0)) eqn:E0; [done|]. cbn [negb].
    split; [done|]. split; [done|]. by exists repoInput, rest, parsed.
Qed.

(** Without a subfolder from the reference or from the arguments,
    [main] asks for one. *)
Lemma main_subfolder_required repoInput rest parsed :
  (js "--version" ∉ repoInput :: rest) → (js "--help" ∉ repoInput :: rest) →
  parseGitHubUrl repoInput = Return parsed →
  subfolder parsed = None → truthy (rest !! 0) = false →
  main (repoInput :: rest) = SubfolderRequired.
Proof.
  intros Hv Hh Hparse Hsub Hrest. unfold main, includes.
  rewrite !bool_decide_eq_false_2 by done. cbn [orb].
  rewrite Hparse, Hsub. cbn [truthy negb andb].
  destruct (bool_decide _); [done|].
  change ((repoInput :: rest) !! 1) with (rest !! 0).
  by rewrite Hrest.
Qed.

Local Ltac among :=
  cbn; repeat first [by apply elem_of_cons; left | apply elem_of_cons; right].

Local Ltac not_among H :=
  repeat (apply elem_of_cons in H as [H|H]; [discriminate H|]);
  by apply elem_of_nil in H.

(** X11.  The flags come first: with [--version] anywhere among the
    arguments [main] prints the version and exits with code 0, whatever
    else is given; failing that, with [--help] anywhere, or without any
    argument, it prints the help and exits with code 0.  The help is
    printed in one more case, after the line that asks for a subfolder
    and with the exit code 1: when the reference parses, neither it nor
    the arguments give a subfolder, and no flag is present.  In no other
    case is the version or the help printed, or the process ended with
    code 0. *)
Theorem main_flags args :
  let out := effects (main args) in
  let noSubfolder :=
    ∃ repoInput rest parsed,
      args = repoInput :: rest ∧
      parseGitHubUrl repoInput = Return parsed ∧
      subfolder parsed = None ∧ truthy (rest !! 0) = false in
  (out = [LogVersion; ProcessExit 0] ↔ (js "--version" ∈ args)) ∧
  (out = [CallPrintHelp; ProcessExit 0] ↔
   (js "--version" ∉ args) ∧ ((js "--help" ∈ args) ∨ args = [])) ∧
  (out = [ConsoleError (js "Subfolder path is required."); CallPrintHelp;
          SetExitCode 1] ↔
   (js "--version" ∉ args) ∧ (js "--help" ∉ args) ∧ noSubfolder) ∧
  ((LogVersion ∈ out) ↔ (js "--version" ∈ args)) ∧
  ((CallPrintHelp ∈ out) ↔
   (js "--version" ∉ args) ∧
   ((js "--help" ∈ args) ∨ args = [] ∨ noSubfolder)) ∧
  ((ProcessExit 0 ∈ out) ↔
   (js "--version" ∈ args) ∨ (js "--help" ∈ args) ∨ args = []).
Proof.
  intros out noSubfolder.
  pose proof (main_cases args) as Hcases.
  assert ((js "--version" ∈ args) → main args = PrintVersion) as Hversion.
  { intros Hv. unfold main, includes. by rewrite bool_decide_eq_true_2. }
  assert ((js "--version" ∉ args) → (js "--help" ∈ args) ∨ args = [] →
          main args = PrintHelp) as Hhelp.
  { intros Hv Hh. unfold main, includes.
    rewrite bool_decide_eq_false_2 by done.
    destruct Hh as [Hh| ->]; [by rewrite bool_decide_eq_true_2|].
    by rewrite bool_decide_eq_false_2 by set_solver. }
  assert ((js "--version" ∉ args) → (js "--help" ∉ args) → noSubfolder →
          main args = SubfolderRequired) as Hrequired.
  { intros Hv Hh (repoInput & rest & parsed & -> & Hparse & Hsub & Hrest).
    by eapply main_subfolder_required. }
  unfold out.
  split_and!; split.
  - by destruct (main args).
  - by intros ->%Hversion.
  - by destruct (main args).
  - by intros [Hv Hh]; rewrite Hhelp.
  - by destruct (main args).
  - by intros (Hv & Hh & Hno); rewrite Hrequired.
  - destruct (main args); cbn; intros Hin; first [exact Hcases|not_among Hin].
  - intros ->%Hversion. among.
  - destruct (main args); cbn; intros Hin; try (by not_among Hin).
    + destruct Hcases as [? ?]. split; [done|]. tauto.
    + destruct Hcases as (? & ? & ?). split; [done|]. tauto.
  - intros [Hv Hcase].
    destruct (decide ((js "--help" ∈ args) ∨ args = [])) as [Hh|Hh].
    + rewrite Hhelp by done. among.
    + rewrite Hrequired by tauto. among.
  - destruct (main args); cbn; intros Hin; try (by not_among Hin).
    + by left.
    + right. tauto.
  - intros Hcase.
    destruct (decide (js "--version" ∈ args)) as [Hv|Hv].
    + rewrite Hversion by done. among.
    + rewrite Hhelp by tauto. among.
Qed.

Lemma main_flags_witness :
  effects (main [js "not a reference"; js "--help"; js "--version"])
  = [LogVersion; ProcessExit 0] ∧
  effects (main [js "owner/repo"])
  = [ConsoleError (js "Subfolder path is required."); CallPrintHelp;
     SetExitCode 1].
Proof.
  split.
  - apply (proj1 (main_flags [js "not a reference"; js "--help";
                              js "--version"])).
    set_solver.
  - apply (proj1 (proj2 (proj2 (main_flags [js "owner/repo"])))).
    split; [|split].
    + intros [E|E%elem_of_nil]%elem_of_cons; [|done]. by vm_compute in E.
    + intros [E|E%elem_of_nil]%elem_of_cons; [|done]. by vm_compute in E.
    + exists (js "owner/repo"), [],
        {| owner := js "owner"; repo := js "repo"; branch := None;
           subfolder := None |}.
      repeat split; vm_compute; reflexivity.
Defined.

Lemma main_download_cases args repoUrl sub target :
  main args = Download repoUrl sub target →
  (js "--version" ∉ args) ∧ (js "--help" ∉ args) ∧ sub ≠ [] ∧
  ∃ repoInput rest parsed,
    args = repoInput :: rest ∧
    parseGitHubUrl repoInput = Return parsed ∧
    repoUrl = rebuild parsed ∧
    ((subfolder parsed = Some sub ∧ target = rest !! 0) ∨
     (subfolder parsed = None ∧ rest !! 0 = Some sub ∧ target = rest !! 1)).
Proof.
  unfold main, includes.
  destruct (decide (js "--version" ∈ args)) as [Hv|Hv];
    [by rewrite bool_decide_eq_true_2|].
  rewrite bool_decide_eq_false_2 by done.
  destruct (decide (js "--help" ∈ args)) as [Hh|Hh];
    [by rewrite bool_decide_eq_true_2|].
  rewrite bool_decide_eq_false_2 by done. cbn [orb].
  destruct args as [|repoInput rest]; [done|].
  rewrite bool_decide_eq_false_2 by done.
  destruct (parseGitHubUrl repoInput) as [parsed|m] eqn:Hparse; [|done].
  destruct (parsed_fields_nonempty _ _ Hparse) as (_ & _ & _ & Hsub).
  destruct (subfolder parsed) as [[|c s]|] eqn:Es; [done|..]; cbn.
  - intros [= <- <- <-]. split; [done|]. split; [done|]. split; [done|].
    exists repoInput, rest, parsed. rewrite Es.
    split; [done|]. split; [done|]. split; [done|]. by left.
  - destruct (bool_decide _); [done|].
    destruct (rest !! 0) as [[|c s]|] eqn:E0; cbn; try done.
    intros [= <- <- <-]. split; [done|]. split; [done|]. split; [done|].
    exists repoInput, rest, parsed. rewrite Es.
    split; [done|]. split; [done|]. split; [done|]. by right.
Qed.

(** X12.  [main] calls [downloadFolder] only without flags among the
    arguments, with a reference that has parsed and a subfolder that is not
    empty. The subfolder of a tree URL takes precedence, and the argument
    after the URL is then the target; otherwise the second argument is the
    subfolder and the third the target. *)
Theorem main_download_inv args repoUrl sub target :
  main args = Download repoUrl sub target →
  (js "--version" ∉ args) ∧ (js "--help" ∉ args) ∧ sub ≠ [] ∧
  ∃ repoInput rest parsed,
    args = repoInput :: rest ∧
    parseGitHubUrl repoInput = Return parsed ∧
    repoUrl = rebuild parsed ∧
    ((subfolder parsed = Some sub ∧ target = rest !! 0) ∨
     (subfolder parsed = None ∧ rest !! 0 = Some sub ∧ target = rest !! 1)).
Proof. exact (main_download_cases args repoUrl sub target). Qed.

Lemma main_download_inv_witness :
  ∃ repoInput rest parsed,
    [js "metallicjs/templates#dev"; js "src/components"; js "./my-folder"]
      = repoInput :: rest ∧
    parseGitHubUrl repoInput = Return parsed ∧
    js "metallicjs/templates#dev" = rebuild parsed ∧
    ((subfolder parsed = Some (js "src/components") ∧
      Some (js "./my-folder") = rest !! 0) ∨
     (subfolder parsed = None ∧ rest !! 0 = Some (js "src/components") ∧
      Some (js "./my-folder") = rest !! 1)).
Proof.
  apply (main_download_inv
           [js "metallicjs/templates#dev"; js "src/components";
            js "./my-folder"]
           (js "metallicjs/templates#dev") (js "src/components")
           (Some (js "./my-folder"))).
  vm_compute. reflexivity.
Defined.

(** X13.  [main] parses the reference, writes it down again as
    [owner/repo#branch] and lets [downloadFolder] parse that. The second
    parse returns the owner, repo and branch of the first whenever owner and
    repo are words of letters, digits, underscores, dots and dashes and the
    branch has no line terminator; a reference in shorthand form is even
    handed over as it was typed. *)
Theorem main_reference_round_trip :
  (∀ args repoInput parsed repoUrl sub target,
     main args = Download repoUrl sub target →
     args !! 0 = Some repoInput →
     parseGitHubUrl repoInput = Return parsed →
     nonEmptyAll wordDotDash (owner parsed) = true →
     nonEmptyAll wordDotDash (repo parsed) = true →
     optAll dot (branch parsed) = true →
     parseGitHubUrl repoUrl
     = Return {| owner := owner parsed; repo := repo parsed;
                 branch := branch parsed; subfolder := None |}) ∧
  (∀ input parsed,
     is_Some (regexMatch 3 shorthandRegex input) →
     parseGitHubUrl input = Return parsed →
     rebuild parsed = input).
Proof.
  assert (∀ parsed, branch parsed ≠ Some [] →
            rebuild parsed
            = shorthand (owner parsed) (repo parsed) (branch parsed)) as Hre.
  { intros [O R [[|c b]|] S]; done. }
  split.
  - intros args repoInput parsed repoUrl sub target Hmain Harg Hparse HO HR HB.
    apply main_download_cases in Hmain
      as (_ & _ & _ & input' & rest & parsed' & -> & Hparse' & -> & _).
    injection Harg as ->. rewrite Hparse in Hparse'. injection Hparse' as <-.
    destruct (parsed_fields_nonempty _ _ Hparse) as (_ & _ & Hb & _).
    rewrite Hre by done. by apply parse_shorthand.
  - intros input parsed Hs Hparse.
    apply shorthand_language in Hs as (O & R & B & HO & HR & HB & -> & Hp).
    rewrite Hparse in Hp. injection Hp as ->.
    destruct (parsed_fields_nonempty _ _ Hparse) as (_ & _ & Hb & _).
    by rewrite Hre.
Qed.

Lemma main_reference_round_trip_witness :
  parseGitHubUrl (js "user/repo#main")
  = Return {| owner := js "user"; repo := js "repo";
              branch := Some (js "main"); subfolder := None |}.
Proof.
  apply (proj1 main_reference_round_trip
           [js "https://github.com/user/repo/tree/main/src/lib";
            js "./lib-copy"]
           (js "https://github.com/user/repo/tree/main/src/lib")
           {| owner := js "user"; repo := js "repo";
              branch := Some (js "main"); subfolder := Some (js "src/lib") |}
           (js "user/repo#main") (js "src/lib") (Some (js "./lib-copy")));
    vm_compute; reflexivity.
Defined.

(** The generic pattern needs something after its second slash: two
    slash-free words, each followed by a slash, do not match it. *)
Lemma trailing_slash_not_generic (O R : jsstring) :
  forallb notSlash O = true → forallb notSlash R = true →
  regexMatch 3 fullRepoRegex (O ++ js "/" ++ R ++ js "/") = None.
Proof.
  intros HO HR.
  destruct (regexMatch 3 fullRepoRegex _) as [m|] eqn:Eg; [|done].
  exfalso.
  apply fullRepoRegex_inv
    in Eg as (pre & O' & R' & git & B' & _ & HR' & _ & E & _).
  set (cnt := λ s : jsstring,
         length (List.filter (λ c, negb (notSlash c)) s)).
  assert (∀ a b, cnt (a ++ b) = cnt a + cnt b) as Happ.
  { intros a b. unfold cnt. by rewrite List.filter_app, length_app. }
  assert (∀ a, forallb notSlash a = true ↔ cnt a = 0) as Hzero.
  { induction a as [|c a IH]; [done|]. unfold cnt in *. cbn.
    destruct (notSlash c); cbn; [exact IH|]. split; [done|lia]. }
  pose proof (f_equal cnt E) as Ec. unfold genericRef in Ec.
  rewrite !Happ in Ec.
  apply Hzero in HO as HOc. apply Hzero in HR as HRc.
  change (cnt (js "/")) with 1 in Ec.
  change (cnt (js "github.com/")) with 1 in Ec.
  assert (cnt pre = 0) as Hpre by lia.
  assert (cnt O' = 0) as HO'c by lia.
  apply Hzero in Hpre. apply Hzero in HO'c.
  unfold genericRef in E.
  change (js "github.com/") with (js "github.com" ++ [47%N]) in E.
  change (js "/") with [47%N] in E.
  rewrite <- !app_assoc, (app_assoc pre) in E. cbn [app] in E.
  apply (span_unique notSlash) in E as (_ & _ & E);
    [|done|done|by rewrite forallb_app, Hpre|done].
  apply (span_unique notSlash) in E as (_ & _ & E); [|done..].
  by destruct R'.
Qed.

(** X14.  A repository URL that ends with a slash gets past [main] and is
    refused by [downloadFolder]: the generic pattern takes the slash into
    the repository name, and [owner/repo/], which [main] hands over, matches
    none of the three patterns. The run then fails with the message about
    the reference format, before any request and without touching the file
    system. *)
Theorem main_trailing_slash_url (O R sub : jsstring) (rest : list jsstring) :
  let url := js "https://github.com/" ++ O ++ js "/" ++ R ++ js "/" in
  let handed := O ++ js "/" ++ R ++ js "/" in
  nonEmptyAll wordDotDash O = true → nonEmptyAll wordDotDash R = true →
  sub ≠ [] →
  includes (url :: sub :: rest) (js "--version") = false →
  includes (url :: sub :: rest) (js "--help") = false →
  main (url :: sub :: rest) = Download handed sub (rest !! 0) ∧
  parseGitHubUrl handed = Throw invalidFormat ∧
  ∀ (W : Type) (F : FsExtra W) env target (w : W),
    downloadFolder env handed sub target w
    = {| finalFs := w; exitCode := Some 1;
         spinnerLog := [Start (js "Preparing download...");
                        Fail invalidFormat] |}.
Proof.
  intros url handed HO HR Hsub Hv Hh.
  pose proof (nonEmptyAll_forallb _ _ HO) as HOa.
  pose proof (nonEmptyAll_forallb _ _ HR) as HRa.
  assert (parseGitHubUrl handed = Throw invalidFormat) as Hhanded.
  { unfold parseGitHubUrl.
    assert (handed = shorthand O (R ++ js "/") None) as Eh.
    { unfold handed, shorthand, fragment.
      by rewrite app_nil_r. }
    rewrite Eh at 1. rewrite shorthand_not_treeUrl by done.
    destruct (regexMatch 3 shorthandRegex _) as [m|] eqn:Es.
    { exfalso.
      apply shorthandRegex_inv in Es as (O' & R' & B' & HO' & HR' & _ & E & _).
      unfold handed, shorthand in E. change (js "/") with [47%N] in E.
      cbn [app] in E.
      apply (span_unique wordDotDash) in E as (<- & _ & E);
        [|done|done|by apply nonEmptyAll_forallb|done].
      destruct B' as [b|]; unfold fragment in E.
      - change (js "#" ++ b) with (35%N :: b) in E.
        by apply (span_unique wordDotDash) in E as (_ & ? & _);
          [|done|done|by apply nonEmptyAll_forallb|done].
      - rewrite app_nil_r in E.
        by eapply (span_end wordDotDash);
          [| |by apply nonEmptyAll_forallb, HR'|exact E]. }
    unfold handed. rewrite trailing_slash_not_generic; [done| |].
    - by apply (forallb_impl wordDotDash), HOa; apply wordDotDash_notSlash.
    - by apply (forallb_impl wordDotDash), HRa; apply wordDotDash_notSlash. }
  split; [|split; [done|]].
  - assert (parseGitHubUrl url
            = Return {| owner := O; repo := R ++ js "/"; branch := None;
                        subfolder := None |}) as Hurl.
    { assert (url = js "https://" ++ genericRef O (R ++ js "/") false None)
        as Eurl.
      { unfold url, genericRef, gitSuffix, fragment.
        change (js "https://github.com/")
          with (js "https://" ++ js "github.com/").
        by rewrite !app_nil_r, <- !app_assoc. }
      rewrite Eurl. apply parse_generic.
      - by apply (nonEmptyAll_impl wordDotDash), HO; apply wordDotDash_dot.
      - by apply (forallb_impl wordDotDash), HOa; apply wordDotDash_notSlash.
      - destruct R as [|c R]; [done|]. cbn -[js].
        cbn -[js] in HRa. apply andb_true_iff in HRa as [Hc HRa].
        rewrite (wordDotDash_dot _ Hc), forallb_app.
        by rewrite (forallb_impl wordDotDash dot _ wordDotDash_dot HRa).
      - rewrite forallb_app.
        by rewrite (forallb_impl wordDotDash notHash _ wordDotDash_notHash HRa).
      - unfold endsWith. by rewrite reverse_app.
      - done.
      - unfold genericRef. reflexivity.
      - rewrite <- Eurl.
        destruct (regexMatch 4 treeUrlRegex url) as [m|] eqn:Et; [|done].
        exfalso.
        apply treeUrlRegex_inv
          in Et as (O' & R' & B' & S' & HO' & HR' & _ & _ & E).
        unfold url, treeUrl in E. apply app_inv_head in E.
        change (js "/") with [47%N] in E.
        change (js "/tree/") with (47%N :: js "tree/") in E.
        cbn [app] in E.
        apply (span_unique notSlash) in E as (<- & _ & E);
          [|by apply (forallb_impl wordDotDash), HOa;
              apply wordDotDash_notSlash
           |done|by apply nonEmptyAll_forallb|done].
        by apply (span_unique notSlash) in E as (_ & _ & ?);
          [|by apply (forallb_impl wordDotDash), HRa;
              apply wordDotDash_notSlash
           |done|by apply nonEmptyAll_forallb|done].
      - rewrite <- Eurl.
        destruct (regexMatch 3 shorthandRegex url) as [m|] eqn:Es; [|done].
        exfalso.
        apply shorthandRegex_inv
          in Es as (O' & R' & B' & HO' & _ & _ & E & _).
        unfold url, shorthand in E.
        change (js "https://github.com/")
          with (js "https" ++ 58%N :: js "//github.com/") in E.
        change (js "/") with [47%N] in E at 3.
        rewrite <- app_assoc in E. cbn [app] in E.
        by apply (span_unique wordDotDash) in E as (_ & ? & _);
          [|done|done|by apply nonEmptyAll_forallb|done]. }
    unfold main. rewrite Hv, Hh. cbn [orb length].
    rewrite bool_decide_eq_false_2 by done. rewrite Hurl.
    cbn -[js]. destruct sub as [|c sub]; [done|].
    cbn -[js]. by rewrite app_nil_r.
  - intros W F env target w. unfold downloadFolder. by rewrite Hhanded.
Qed.

Lemma main_trailing_slash_url_witness :
  main [js "https://github.com/metallicjs/templates/"; js "saas-lite"]
  = Download (js "metallicjs/templates/") (js "saas-lite") None ∧
  parseGitHubUrl (js "metallicjs/templates/") = Throw invalidFormat.
Proof.
  destruct (main_trailing_slash_url (js "metallicjs") (js "templates")
              (js "saas-lite") [])
    as (Hmain & Hparse & _); [by vm_compute..|].
  split; [exact Hmain|exact Hparse].
Defined.

(** ** Where the entries are written *)

Section PathFacts.
Implicit Types (a b p : jsstring) (segs acc : list jsstring).

Lemma segments_nonempty p : Path.segments p ≠ [].
Proof.
  induction p as [|c p IH]; simpl; [done|].
  destruct (Path.isSlash c); [done|]. by destruct (Path.segments p).
Qed.

Lemma segments_app_slash a b :
  Path.segments (a ++ 47%N :: b) = Path.segments a ++ Path.segments b.
Proof.
  induction a as [|c a IH]; [done|].
  cbn [app Path.segments]. rewrite IH.
  destruct (Path.isSlash c); [done|].
  pose proof (segments_nonempty a). by destruct (Path.segments a).
Qed.

(** Without [..] the segments read so far are never taken back. *)
Lemma pushSegments_keep allow segs acc :
  forallb (λ seg, negb (bool_decide (seg = js ".."))) segs = true →
  ∃ more, fold_left (Path.pushSegment allow) segs acc = more ++ acc.
Proof.
  revert acc. induction segs as [|seg segs IH]; intros acc; simpl.
  - by exists [].
  - intros [Hseg Hsegs]%andb_true_iff.
    apply negb_true_iff in Hseg. unfold Path.pushSegment at 2.
    rewrite Hseg. destruct (_ || _).
    + by apply IH.
    + destruct (IH (seg :: acc) Hsegs) as [more ->].
      exists (more ++ [seg]). by rewrite <- app_assoc.
Qed.

Lemma normalize_absolute p :
  Path.isAbsolute p = true →
  ∃ trailing, (trailing = [] ∨ trailing = js "/") ∧
    Path.normalize p
    = js "/" ++ Path.normalizeString p false ++ trailing.
Proof.
  intros Habs. unfold Path.normalize.
  destruct p as [|c p]; [done|]. rewrite Habs. cbn [negb].
  destruct (Path.normalizeString (c :: p) false) as [|d res] eqn:E.
  - exists []. by auto.
  - destruct (endsWith _ _).
    + exists (js "/"). by auto.
    + exists []. rewrite app_nil_r. by auto.
Qed.

(** Joining a path without [..] onto an absolute directory stays at or
    below that directory. *)
Lemma join_below out rest :
  Path.isAbsolute out = true → noDotDot rest = true →
  ∃ more trailing,
    (trailing = [] ∨ trailing = js "/") ∧
    Path.join out rest
    = js "/" ++ Path.joinWith (js "/") (dirSegments out ++ more) ++ trailing.
Proof.
  intros Habs Hrest. unfold Path.join.
  destruct out as [|c out]; [done|].
  destruct rest as [|d rest].
  - destruct (normalize_absolute (c :: out) Habs) as (tr & Htr & ->).
    exists [], tr. by rewrite app_nil_r.
  - assert (Path.isAbsolute ((c :: out) ++ js "/" ++ d :: rest) = true)
      as Habs' by done.
    destruct (normalize_absolute _ Habs') as (tr & Htr & ->).
    unfold Path.normalizeString.
    change (js "/" ++ d :: rest) with (47%N :: d :: rest).
    rewrite segments_app_slash, fold_left_app.
    destruct (pushSegments_keep false (Path.segments (d :: rest))
                (fold_left (Path.pushSegment false)
                   (Path.segments (c :: out)) []) Hrest) as [more ->].
    exists (reverse more), tr. split; [done|].
    by rewrite reverse_app.
Qed.
End PathFacts.

(** X15.  The output directory is an absolute path whatever the target is,
    and a target that is given decides it alone: the subfolder then plays no
    part in it. *)
Theorem outputDir_absolute env subfolder target :
  Path.isAbsolute (cwd env) = true →
  Path.isAbsolute (outputDirOf env subfolder target) = true ∧
  ∀ subfolder' c t,
    target = Some (c :: t) →
    outputDirOf env subfolder' target = outputDirOf env subfolder target.
Proof.
  intros Hcwd. split.
  - unfold outputDirOf, Path.resolve.
    set (x := orElseStr target _).
    change (reverse [cwd env; x] ++ [cwd env]) with [x; cwd env; cwd env].
    destruct (cwd env) as [|c0 d] eqn:Ecwd; [done|].
    cbn [Path.resolveLoop]. rewrite Hcwd.
    destruct x as [|c1 x]; [done|].
    by destruct (Path.isAbsolute (c1 :: x)).
  - by intros subfolder' c t ->.
Qed.

Lemma outputDir_absolute_witness :
  Path.isAbsolute (outputDirOf (Demo.env []) (js "src/components/") None)
  = true.
Proof. apply outputDir_absolute. reflexivity. Defined.

(** X16.  An entry is written at or below the output directory unless what
    is left of its path has a [..] segment: the destination then consists of
    the segments of the output directory followed by further ones. *)
Theorem localPath_below_outputDir prefix outputDir nsub entry :
  Path.isAbsolute outputDir = true →
  noDotDot (replaceFirst (nsub ++ js "/") (relativePath prefix entry)) = true →
  ∃ more trailing,
    (trailing = [] ∨ trailing = js "/") ∧
    localPath prefix outputDir nsub entry
    = js "/" ++ Path.joinWith (js "/") (dirSegments outputDir ++ more)
      ++ trailing.
Proof. intros Habs Hrest. by apply join_below. Qed.

Lemma localPath_below_outputDir_witness :
  ∃ more trailing,
    (trailing = [] ∨ trailing = js "/") ∧
    localPath (js "repo-branch/") (js "/work/output") (js "keep")
      (Demo.file "repo-branch/keep/sub/./b.txt" [98%N])
    = js "/" ++ Path.joinWith (js "/") ([js "work"; js "output"] ++ more)
      ++ trailing.
Proof.
  apply (localPath_below_outputDir (js "repo-branch/") (js "/work/output")
           (js "keep") (Demo.file "repo-branch/keep/sub/./b.txt" [98%N]));
    reflexivity.
Defined.

(** An entry in scope whose path climbs with [..] is written outside the
    output directory. *)
Example localPath_escapes :
  let entry := Demo.file "repo-branch/keep/../evil.txt" [101%N] in
  inScope (js "repo-branch/") (js "keep") entry = true ∧
  localPath (js "repo-branch/") (js "/work/output") (js "keep") entry
  = js "/work/evil.txt".
Proof. split; vm_compute; reflexivity. Qed.

(** ** The earlier version and the present one *)

(** No URL with a scheme is a shorthand: the colon is not a word
    character. *)
Lemma https_not_shorthand (rest : jsstring) :
  regexMatch 3 shorthandRegex (js "https://" ++ rest) = None.
Proof.
  destruct (regexMatch 3 shorthandRegex _) as [m|] eqn:Es; [|done].
  exfalso.
  apply shorthandRegex_inv in Es as (O & R & B & HO & _ & _ & E & _).
  unfold shorthand in E.
  change (js "https://" ++ rest) with (js "https" ++ 58%N :: js "//" ++ rest)
    in E.
  change (js "/" ++ R ++ fragment B) with (47%N :: R ++ fragment B) in E.
  by apply (span_unique wordDotDash) in E as (_ & ? & _);
    [|done|done|by apply nonEmptyAll_forallb|done].
Qed.

(** X17.  The present parser extends the earlier one: on an input that
    the tree-URL pattern does not match, both return the same owner, repo
    and branch, or both refuse it, each with its own message. *)
Theorem legacy_agrees_off_tree_urls input :
  regexMatch 4 treeUrlRegex input = None →
  match Legacy.parseGitHubUrl input, parseGitHubUrl input with
  | Return old, Return new => ofLegacy old = new
  | Throw old, Throw new => old = Legacy.invalidFormat ∧ new = invalidFormat
  | _, _ => False
  end.
Proof.
  intros Ht. unfold Legacy.parseGitHubUrl, parseGitHubUrl.
  rewrite Ht.
  change Legacy.shorthandRegex with shorthandRegex.
  change Legacy.urlRegex with fullRepoRegex.
  destruct (regexMatch 3 shorthandRegex input); [done|].
  by destruct (regexMatch 3 fullRepoRegex input).
Qed.

Lemma legacy_agrees_off_tree_urls_witness :
  let input := js "https://github.com/metallicjs/templates.git#dev" in
  regexMatch 4 treeUrlRegex input = None ∧
  match Legacy.parseGitHubUrl input, parseGitHubUrl input with
  | Return old, Return new => ofLegacy old = new
  | Throw old, Throw new => old = Legacy.invalidFormat ∧ new = invalidFormat
  | _, _ => False
  end.
Proof.
  split; [vm_compute; reflexivity|].
  apply (legacy_agrees_off_tree_urls
           (js "https://github.com/metallicjs/templates.git#dev")).
  vm_compute; reflexivity.
Defined.

(** X18.  A tree URL, which the present parser takes apart into owner,
    repo, branch and subfolder, was read by the earlier parser as a
    repository without a branch whose name is all that follows the
    owner: [R/tree/B/S]. *)
Theorem legacy_reads_tree_url_as_repo (O R B S : jsstring) :
  nonEmptyAll notSlash O = true → forallb dot O = true →
  nonEmptyAll notSlash R = true → nonEmptyAll notSlash B = true →
  nonEmptyAll dot S = true →
  forallb dot (R ++ js "/tree/" ++ B ++ js "/" ++ S) = true →
  forallb notHash (R ++ js "/tree/" ++ B ++ js "/" ++ S) = true →
  endsWith (js ".git") (R ++ js "/tree/" ++ B ++ js "/" ++ S) = false →
  Legacy.parseGitHubUrl (treeUrl O R B S)
  = Return {| Legacy.owner := O;
              Legacy.repo := R ++ js "/tree/" ++ B ++ js "/" ++ S;
              Legacy.branch := None |} ∧
  parseGitHubUrl (treeUrl O R B S)
  = Return {| owner := O; repo := R; branch := Some B;
              subfolder := Some S |}.
Proof.
  intros HO HOd HR HB HS Hdot Hhash Hgit. split.
  2:{ by apply parse_treeUrl. }
  unfold Legacy.parseGitHubUrl.
  change Legacy.shorthandRegex with shorthandRegex.
  change Legacy.urlRegex with fullRepoRegex.
  assert (treeUrl O R B S
          = js "https://" ++
            genericRef O (R ++ js "/tree/" ++ B ++ js "/" ++ S) false None)
    as E.
  { unfold treeUrl, genericRef, gitSuffix, fragment.
    change (js "https://github.com/")
      with (js "https://" ++ js "github.com/").
    rewrite !app_nil_r, <- !app_assoc. reflexivity. }
  rewrite E, https_not_shorthand.
  rewrite (fullRepoRegex_match (js "https://")); try done.
  - destruct O; [done|]. exact HOd.
  - destruct O; [done|]. exact HO.
  - destruct R as [|c R]; [done|]. exact Hdot.
  - by rewrite Hgit.
Qed.

Lemma legacy_reads_tree_url_as_repo_witness :
  Legacy.parseGitHubUrl (js "https://github.com/user/repo/tree/main/src/lib")
  = Return {| Legacy.owner := js "user";
              Legacy.repo := js "repo/tree/main/src/lib";
              Legacy.branch := None |} ∧
  parseGitHubUrl (js "https://github.com/user/repo/tree/main/src/lib")
  = Return {| owner := js "user"; repo := js "repo";
              branch := Some (js "main"); subfolder := Some (js "src/lib") |}.
Proof.
  exact (legacy_reads_tree_url_as_repo (js "user") (js "repo") (js "main")
           (js "src/lib")
           ltac:(vm_compute; reflexivity) ltac:(vm_compute; reflexivity)
           ltac:(vm_compute; reflexivity) ltac:(vm_compute; reflexivity)
           ltac:(vm_compute; reflexivity) ltac:(vm_compute; reflexivity)
           ltac:(vm_compute; reflexivity) ltac:(vm_compute; reflexivity)).
Defined.
